(** * dmshw: the weather proxy [prox.py]

    A shallow embedding of the request-handling core of [src/prox.py]: the
    haversine distance, the five-minute cache of the station list, the
    station selection with its temperature plausibility filter, and the
    [/api] handler that ties them together.

    Python floats are IEEE binary64 numbers, modelled by Rocq's primitive
    [float].  Python exceptions are modelled by an error monad, the process
    global [cache] and the outgoing HTTP calls by explicit state passing. *)

From Stdlib Require Import ZArith Floats Lia Bool Ascii String.
From stdpp Require Import gmap strings list.

Set Warnings "-register-all,-inexact-float".

Local Open Scope Z_scope.

(** * Python values *)

(** ** Exceptions

    The exception classes the handler can meet.  [JSONDecodeError] and
    [UnicodeDecodeError] are subclasses of [ValueError] in Python and are
    folded into it; [URLError] stands for whatever [urlopen] raises. *)
Inductive exn : Set :=
| ValueError
| TypeError
| AttributeError
| OverflowError
| URLError.

Inductive result (A : Type) : Type :=
| Ok (a : A)
| Raise (e : exn).
Arguments Ok {A} a.
Arguments Raise {A} e.

Definition bind {A B : Type} (r : result A) (k : A -> result B) : result B :=
  match r with
  | Ok a => k a
  | Raise e => Raise e
  end.

Declare Scope py_scope.
Delimit Scope py_scope with py.
Notation "'let*' x ':=' r 'in' k" := (bind r (fun x => k))
  (at level 10, x pattern, r at level 100, k at level 200) : py_scope.
Local Open Scope py_scope.

(** ** Floats *)

Module F.
Local Open Scope float_scope.

(** [float(n)] for a Python int: the nearest binary64 number, ties to
    even, and [OverflowError] when the int is too large. *)
Definition of_Z (z : Z) : result float :=
  match binary_normalize prec emax z 0 false with
  | S754_infinity _ => Raise OverflowError
  | sf => Ok (SF2Prim sf)
  end.

(** The nearest binary64 number to [(-1)^neg * m * 10^e10] ([0 <= m]),
    as [strtod] computes it: infinite on overflow, zero on underflow. *)
Definition of_decimal (neg : bool) (m e10 : Z) : float :=
  SF2Prim
    match m with
    | Zpos p =>
        if (0 <=? e10)%Z
        then binary_normalize prec emax (cond_Zopp neg (m * 10 ^ e10)) 0 false
        else SFdiv prec emax (S754_finite neg p 0)
               (S754_finite false (Z.to_pos (10 ^ (- e10))) 0)
    | _ => S754_zero neg
    end.

(** [round(x, 2)] on a float: the exact value of [x] is rounded to two
    decimal places, ties to even, and the nearest binary64 number to that
    decimal is returned.  NaN, the infinities and the zeros are returned
    as they are. *)
Definition round_half_even (num den : Z) : Z :=
  let q := (num / den)%Z in
  let r := (num mod den)%Z in
  match (2 * r ?= den)%Z with
  | Lt => q
  | Gt => (q + 1)%Z
  | Eq => if Z.even q then q else (q + 1)%Z
  end.

Definition round2 (x : float) : float :=
  match Prim2SF x with
  | S754_finite s m e =>
      let hundredths :=
        match e with
        | Zneg k => round_half_even (Zpos m * 100) (2 ^ Zpos k)
        | _ => (Zpos m * 2 ^ e * 100)%Z
        end in
      of_decimal s hundredths (-2)
  | _ => x
  end.

(** [int(x)] on a float: the integer part, [ValueError] on NaN and
    [OverflowError] on an infinity. *)
Definition to_int (x : float) : result Z :=
  match Prim2SF x with
  | S754_nan => Raise ValueError
  | S754_infinity _ => Raise OverflowError
  | S754_zero _ => Ok 0%Z
  | S754_finite s m e =>
      Ok (cond_Zopp s
            match e with
            | Zneg k => (Zpos m / 2 ^ Zpos k)%Z
            | _ => (Zpos m * 2 ^ e)%Z
            end)
  end.

(** Python's [x < y] and [x <= y] on pairs [(x1, x2)] of floats: the
    first components decide unless they are equal. *)
Definition pair_ltb (x y : float * float) : bool :=
  if fst x =? fst y then snd x <? snd y else fst x <? fst y.

End F.

(** ** Text

    A Python [str] is a sequence of code points.  A [string] holds it in
    UTF-8, so that two texts are equal when their strings are; where the
    code looks at the characters of a text, [float] and a [for] loop over
    a string, the model decodes it. *)
Module Text.
Definition code (c : ascii) : Z := Z.of_N (Ascii.N_of_ascii c).

Definition is_continuation (c : ascii) : bool :=
  (128 <=? code c) && (code c <=? 191).

(** What a byte starts: a character of its own, or one of [need] further
    bytes whose code point is no less than [least]; [-1] for a byte that
    starts no character. *)
Definition lead (n : Z) : Z + Z * nat * Z :=
  if n <? 128 then inl n
  else if (194 <=? n) && (n <=? 223) then inr (n - 192, 1%nat, 128)
  else if (224 <=? n) && (n <=? 239) then inr (n - 224, 2%nat, 2048)
  else if (240 <=? n) && (n <=? 244) then inr (n - 240, 3%nat, 65536)
  else inl (-1).

(** The code points of a text; [-1] stands for bytes that encode none.
    [pending] is the character begun by the bytes read last. *)
Fixpoint decode (pending : option (Z * nat * Z)) (s : list ascii) : list Z :=
  match s with
  | [] => match pending with Some _ => [-1] | None => [] end
  | b :: t =>
      let fresh :=
        match lead (code b) with
        | inl c => c :: decode None t
        | inr begun => decode (Some begun) t
        end in
      match pending with
      | Some (acc, need, least) =>
          if is_continuation b then
            let acc := acc * 64 + (code b - 128) in
            match need with
            | S (S k) => decode (Some (acc, S k, least)) t
            | _ =>
                (if (least <=? acc) && (acc <=? 1114111) then acc else -1)
                  :: decode None t
            end
          else -1 :: fresh
      | None => fresh
      end
  end.

Definition code_points (s : string) : list Z :=
  decode None (String.list_ascii_of_string s).

(** The characters of a text, each a text of its own: a new one begins
    at every byte that continues none. *)
Definition chars (s : string) : list string :=
  let '(pending, found) :=
    fold_right
      (fun b '(pending, found) =>
         if is_continuation b then (String b pending, found)
         else (EmptyString, String b pending :: found))
      (EmptyString, []) (String.list_ascii_of_string s) in
  match pending with
  | EmptyString => found
  | _ => pending :: found
  end.

(** A text that [str.encode('utf-8')] accepts: it holds no surrogate. *)
Definition encodable (s : string) : bool :=
  forallb (fun c => negb ((55296 <=? c) && (c <=? 57343))) (code_points s).

(** [Py_UNICODE_ISSPACE] beyond ASCII. *)
Definition is_space (c : Z) : bool :=
  (c =? 133) || (c =? 160) || (c =? 5760) || (8192 <=? c) && (c <=? 8202)
  || (c =? 8232) || (c =? 8233) || (c =? 8239) || (c =? 8287) || (c =? 12288).

(** The decimal digits beyond ASCII come in runs of ten, [0] to [9];
    these are the first code points of the runs (Unicode 14.0, the
    database of CPython 3.11). *)
Definition decimal_runs : list Z :=
  [1632; 1776; 1984; 2406; 2534; 2662; 2790; 2918; 3046; 3174; 3302; 3430;
   3558; 3664; 3792; 3872; 4160; 4240; 6112; 6160; 6470; 6608; 6784; 6800;
   6992; 7088; 7232; 7248; 42528; 43216; 43264; 43472; 43504; 43600; 44016;
   65296; 66720; 68912; 69734; 69872; 69942; 70096; 70384; 70736; 70864;
   71248; 71360; 71472; 71904; 72016; 72784; 73040; 73120; 92768; 92864;
   93008; 120782; 120792; 120802; 120812; 120822; 123200; 123632; 125264;
   130032].

(** [Py_UNICODE_TODECIMAL] beyond ASCII. *)
Definition to_decimal (c : Z) : option Z :=
  (fun first => c - first)
    <$> List.find (fun first => (first <=? c) && (c <? first + 10)) decimal_runs.
End Text.

(** ** JSON documents

    What [json.loads] returns: [None], [bool], [int], [float], [str],
    [list] and [dict] with string keys. *)
Inductive json : Type :=
| JNull
| JBool (b : bool)
| JInt (z : Z)
| JFloat (f : float)
| JStr (s : string)
| JArr (l : list json)
| JObj (m : gmap string json).

(** [x is None] *)
Definition is_None (j : json) : bool :=
  match j with JNull => true | _ => false end.

(** Python truthiness ([not x], [x or y]) of a decoded JSON value. *)
Definition truthy (j : json) : bool :=
  match j with
  | JNull => false
  | JBool b => b
  | JInt z => negb (z =? 0)
  | JFloat f => negb (PrimFloat.eqb f 0)
  | JStr s => negb (String.eqb s "")
  | JArr l => match l with [] => false | _ => true end
  | JObj m => negb (bool_decide (m = ∅))
  end.

Definition py_or (a b : json) : json := if truthy a then a else b.

(** A decoded JSON value that
    [json.dumps(v, ensure_ascii=False).encode('utf-8')] accepts: none of
    its texts, keys included, holds a surrogate. *)
Fixpoint encodable (j : json) : bool :=
  match j with
  | JStr s => Text.encodable s
  | JArr l => forallb encodable l
  | JObj m =>
      map_fold (fun k v rest => Text.encodable k && encodable v && rest) true m
  | _ => true
  end.

(** [d.get(k)]: the value at [k], [None] when the key is absent, and
    [AttributeError] when [d] is not a dict. *)
Definition dict_get (d : json) (k : string) : result json :=
  match d with
  | JObj m => Ok (default JNull (m !! k))
  | _ => Raise AttributeError
  end.

(** [d.get(k, {})] *)
Definition dict_get_or_empty (d : json) (k : string) : result json :=
  match d with
  | JObj m => Ok (default (JObj ∅) (m !! k))
  | _ => Raise AttributeError
  end.

(** The items a [for] loop over a decoded JSON value visits: the elements
    of a list, the keys of a dict, the characters of a string; anything
    else is not iterable. *)
Definition py_iter (j : json) : result (list json) :=
  match j with
  | JArr l => Ok l
  | JObj m => Ok (JStr <$> (map_to_list m).*1)
  | JStr s => Ok (JStr <$> Text.chars s)
  | _ => Raise TypeError
  end.

(** ** [float(...)]

    [float(s)] on a string, as [PyFloat_FromString] computes it.  A text
    that is not ASCII is first rewritten in ASCII: code points below 127
    stay, a Unicode space becomes a blank, a Unicode decimal digit its
    ASCII digit, and the text ends in a question mark at the first
    character that is none of these.  Then the whitespace of
    [Py_ISSPACE] around the text is dropped, and what is left must be an
    optional sign followed by [inf], [infinity] or [nan] in any case, or
    by a decimal number whose digit groups may hold single underscores
    between digits.  Anything else raises [ValueError]. *)
Module FloatSyntax.
Definition code (c : ascii) : Z := Z.of_N (Ascii.N_of_ascii c).

(** [Py_ISSPACE]: tab to carriage return, and the blank. *)
Definition is_space (c : ascii) : bool :=
  let n := code c in
  (9 <=? n) && (n <=? 13) || (n =? 32).

Definition of_code (n : Z) : ascii := Ascii.ascii_of_N (Z.to_N n).

(** [_PyUnicode_TransformDecimalAndSpaceToASCII] on the code points of a
    text that is not ASCII. *)
Fixpoint transform (cs : list Z) : list ascii :=
  match cs with
  | [] => []
  | c :: rest =>
      if (0 <=? c) && (c <? 127) then of_code c :: transform rest
      else if Text.is_space c then of_code 32 :: transform rest
      else
        match Text.to_decimal c with
        | Some d => of_code (48 + d) :: transform rest
        | None => [of_code 63]
        end
  end.

(** The text [float] parses: an ASCII text as it is. *)
Definition ascii_text (s : string) : list ascii :=
  let bytes := String.list_ascii_of_string s in
  if forallb (fun b => code b <? 128) bytes then bytes
  else transform (Text.code_points s).

Definition digit_of (c : ascii) : option Z :=
  let n := code c in
  if (48 <=? n) && (n <=? 57) then Some (n - 48) else None.

Definition lower (c : ascii) : ascii :=
  let n := code c in
  if (65 <=? n) && (n <=? 90) then Ascii.ascii_of_N (Z.to_N (n + 32)) else c.

Fixpoint lstrip (s : list ascii) : list ascii :=
  match s with
  | c :: s' => if is_space c then lstrip s' else s
  | [] => []
  end.

Definition strip (s : list ascii) : list ascii :=
  reverse (lstrip (reverse (lstrip s))).

Definition is_word (w : string) (s : list ascii) : bool :=
  bool_decide (lower <$> s = String.list_ascii_of_string w).

(** A digit group read from the front of [s]: its value on top of
    [acc], the number of digits read on top of [n], and what follows. *)
Fixpoint digitpart (s : list ascii) (acc n : Z) : Z * Z * list ascii :=
  match s with
  | c :: s' =>
      match digit_of c with
      | Some d => digitpart s' (10 * acc + d) (n + 1)
      | None =>
          match s' with
          | c' :: _ =>
              if (code c =? 95) && (0 <? n) && bool_decide (is_Some (digit_of c'))
              then digitpart s' acc n
              else (acc, n, s)
          | [] => (acc, n, s)
          end
      end
  | [] => (acc, n, s)
  end.

(** The exponent part, [0] when there is none; [None] when an [e] is
    followed by no digits or the text does not end there. *)
Definition exponent (s : list ascii) : option Z :=
  match s with
  | [] => Some 0
  | c :: s' =>
      if code (lower c) =? 101 then
        let '(neg, s'') :=
          match s' with
          | d :: t => if code d =? 45 then (true, t)
                      else if code d =? 43 then (false, t) else (false, s')
          | [] => (false, s')
          end in
        match digitpart s'' 0 0 with
        | (v, n, []) => if 0 <? n then Some (cond_Zopp neg v) else None
        | _ => None
        end
      else None
  end.

Definition number (neg : bool) (s : list ascii) : result float :=
  let '(ip, n1, s1) := digitpart s 0 0 in
  let '(m, n2, s2) :=
    match s1 with
    | c :: t => if code c =? 46 then digitpart t ip 0 else (ip, 0, s1)
    | [] => (ip, 0, s1)
    end in
  if 0 <? n1 + n2 then
    match exponent s2 with
    | Some e => Ok (F.of_decimal neg m (e - n2))
    | None => Raise ValueError
    end
  else Raise ValueError.

Definition unsigned (neg : bool) (s : list ascii) : result float :=
  if is_word "inf" s || is_word "infinity" s
  then Ok (if neg then neg_infinity else infinity)
  else if is_word "nan" s then Ok nan
  else number neg s.

Definition parse (s : string) : result float :=
  match strip (ascii_text s) with
  | c :: t =>
      if code c =? 45 then unsigned true t
      else if code c =? 43 then unsigned false t
      else unsigned false (c :: t)
  | [] => Raise ValueError
  end.
End FloatSyntax.

(** [float(x)] on a decoded JSON value. *)
Definition py_float (j : json) : result float :=
  match j with
  | JFloat f => Ok f
  | JInt z => F.of_Z z
  | JBool b => Ok (if b then 1 else 0)%float
  | JStr s => FloatSyntax.parse s
  | JNull | JArr _ | JObj _ => Raise TypeError
  end.

(** * The [math] module

    [sin], [cos], [atan2] and [pow] are the C library's; they are taken as
    parameters.  What CPython adds around them is modelled here: the
    domain and range checks of [math.sin], [math.cos], [math.sqrt] and
    [math.atan2], and the special cases of [x ** 2].  [sqrt] is correctly
    rounded in IEEE arithmetic and is the primitive [PrimFloat.sqrt]. *)
Record libm : Type := {
  c_sin : float -> float;
  c_cos : float -> float;
  c_atan2 : float -> float -> float;
  c_pow : float -> float -> float
}.

Module Math.
Local Open Scope float_scope.

(** [Py_MATH_PI / 180.0] *)
Definition degToRad : float := 0x1.1df46a2529d39p-6.

Definition radians (x : float) : float := x * degToRad.

(** CPython's [math_1] wrapper, for functions that cannot overflow. *)
Definition math_1 (func : float -> float) (x : float) : result float :=
  let r := func x in
  if is_nan r && negb (is_nan x) then Raise ValueError
  else if is_infinity r && is_finite x then Raise ValueError
  else Ok r.

(** CPython's [math_2] wrapper. *)
Definition math_2 (func : float -> float -> float) (x y : float) : result float :=
  let r := func x y in
  if is_nan r then
    if negb (is_nan x) && negb (is_nan y) then Raise ValueError else Ok r
  else if is_infinity r then
    if is_finite x && is_finite y then Raise OverflowError else Ok r
  else Ok r.

(** [x ** 2] on a float ([float_pow] with exponent [2.0]). *)
Definition square (M : libm) (x : float) : result float :=
  if is_nan x then Ok x
  else if is_infinity x then Ok (abs x)
  else if x =? 0 then Ok 0
  else
    let iv := if x <? 0 then - x else x in
    if iv =? 1 then Ok 1
    else
      let ix := c_pow M iv 2 in
      if is_infinity ix then Raise OverflowError else Ok ix.

Definition sin (M : libm) : float -> result float := math_1 (c_sin M).
Definition cos (M : libm) : float -> result float := math_1 (c_cos M).
Definition sqrt : float -> result float := math_1 PrimFloat.sqrt.
Definition atan2 (M : libm) : float -> float -> result float := math_2 (c_atan2 M).
End Math.

(** * The proxy *)

Section Prox.
Variable M : libm.

Local Open Scope float_scope.

(** ** Distance *)

Definition calculate_distance (lat1 lon1 lat2 lon2 : float) : result float :=
  let earth_radius := 6371 in
  let d_lat := Math.radians (lat2 - lat1) in
  let d_lon := Math.radians (lon2 - lon1) in
  let* s_lat := Math.sin M (d_lat / 2) in
  let* s_lat2 := Math.square M s_lat in
  let* c1 := Math.cos M (Math.radians lat1) in
  let* c2 := Math.cos M (Math.radians lat2) in
  let* s_lon := Math.sin M (d_lon / 2) in
  let* s_lon2 := Math.square M s_lon in
  let a := s_lat2 + c1 * c2 * s_lon2 in
  let* sqrt_a := Math.sqrt a in
  let* sqrt_1a := Math.sqrt (1 - a) in
  let* t := Math.atan2 M sqrt_a sqrt_1a in
  let c := 2 * t in
  Ok (earth_radius * c).

(** ** Selection *)

(** An entry of [candidates]: the node with its distance and its
    temperature deviation. *)
Record candidate : Type := {
  node : json;
  distance_km : float;
  temp_diff : float
}.

(** [sorted(xs, key=...)]: Python's sort is stable and compares keys
    with [<] only.  On keys that [<] orders (floats and pairs of floats
    other than NaN) every stable sort returns the same list, and the
    model is the simplest of them, an insertion sort: every item is put,
    from left to right, behind the items of the sorted prefix it is not
    smaller than.  On keys with a NaN the list CPython returns depends
    on the merge strategy of list.sort; the theorems on [sorted] leave
    such keys out. *)
Fixpoint insort {A K : Type} (ltb : K -> K -> bool) (key : A -> K)
    (pivot : A) (run : list A) : list A :=
  match run with
  | [] => [pivot]
  | x :: rest =>
      if ltb (key pivot) (key x) then pivot :: run
      else x :: insort ltb key pivot rest
  end.

Definition sorted {A K : Type} (ltb : K -> K -> bool) (key : A -> K)
    (xs : list A) : list A :=
  foldl (fun run pivot => insort ltb key pivot run) [] xs.

(** [find_nearest_node]: the loop, from the state [(nearest,
    min_distance)] it is entered with. *)
Fixpoint nearest_loop (user_lat user_lon : float) (nodes : list json)
    (nearest : option json) (min_distance : float)
    : result (option json * float) :=
  match nodes with
  | [] => Ok (nearest, min_distance)
  | node :: rest =>
      let* node_lat := dict_get node "latitude" in
      let* node_lon := dict_get node "longitude" in
      if is_None node_lat || is_None node_lon
      then nearest_loop user_lat user_lon rest nearest min_distance
      else
        let* lat := py_float node_lat in
        let* lon := py_float node_lon in
        let* distance := calculate_distance user_lat user_lon lat lon in
        if distance <? min_distance
        then nearest_loop user_lat user_lon rest (Some node) distance
        else nearest_loop user_lat user_lon rest nearest min_distance
  end.

Definition find_nearest_node (user_lat user_lon : float) (nodes : json)
    : result (option json * float) :=
  let* items := py_iter nodes in
  nearest_loop user_lat user_lon items None infinity.

(** [find_best_matching_node]: the loop that fills [candidates]. *)
Fixpoint collect_candidates (user_lat user_lon : float) (ref_temp : json)
    (nodes : list json) : result (list candidate) :=
  match nodes with
  | [] => Ok []
  | node :: rest =>
      let* node_lat := dict_get node "latitude" in
      let* node_lon := dict_get node "longitude" in
      let* node_temp := dict_get node "temperature" in
      let* node_humidity := dict_get node "relative_humidity" in
      let* node_pressure := dict_get node "barometric_pressure" in
      if is_None node_lat || is_None node_lon || is_None node_temp
         || is_None node_humidity || is_None node_pressure
      then collect_candidates user_lat user_lon ref_temp rest
      else
        let* lat := py_float node_lat in
        let* lon := py_float node_lon in
        let* distance := calculate_distance user_lat user_lon lat lon in
        let* diff :=
          if is_None ref_temp then Ok 0
          else
            let* t := py_float node_temp in
            let* r := py_float ref_temp in
            Ok (abs (t - r)) in
        let* candidates := collect_candidates user_lat user_lon ref_temp rest in
        Ok ({| node := node; distance_km := distance; temp_diff := diff |}
              :: candidates)
  end.

(** [find_best_matching_node] returns [(None, None)] or
    [(best['node'], best)]; the pair is the [option candidate] here. *)
Definition find_best_matching_node (user_lat user_lon : float)
    (nodes openmeteo_current : json) : result (option candidate) :=
  let* ref_temp := dict_get openmeteo_current "temperature_2m" in
  let* items := py_iter nodes in
  let* candidates := collect_candidates user_lat user_lon ref_temp items in
  match candidates with
  | [] => Ok None
  | _ =>
      if is_None ref_temp
      then Ok (head (sorted PrimFloat.ltb distance_km candidates))
      else
        let matching := List.filter (fun c => temp_diff c <=? 2) candidates in
        match matching with
        | _ :: _ => Ok (head (sorted PrimFloat.ltb distance_km matching))
        | [] =>
            Ok (head (sorted F.pair_ltb
                        (fun c => (temp_diff c, distance_km c)) candidates))
        end
  end.

(** ** The world around a request

    [bytes] is a response body as far as the proxy can tell bodies
    apart: the document [json.loads] decodes it to, or a body it
    rejects. *)
Inductive bytes : Type :=
| Encoded (doc : json)
| Malformed.

(** [json.loads(raw.decode('utf-8'))] *)
Definition json_loads (raw : bytes) : result json :=
  match raw with
  | Encoded doc => Ok doc
  | Malformed => Raise ValueError
  end.

(** The global [cache] dict. *)
Record cache_t : Type := {
  data : option bytes;
  timestamp : float
}.

Definition cache_init : cache_t := {| data := None; timestamp := 0 |}.

Definition CACHE_DURATION : float := 300.

(** The outgoing calls of a run, latest first. *)
Inductive call : Type :=
| UrlopenNodes
| UrlopenOpenMeteo (lat lon : float).

Record world : Type := {
  cache : cache_t;
  calls : list call
}.

(** What the outside answers during one request: the clock, and the two
    upstream services. *)
Record env : Type := {
  time : float;
  nodes_api : result bytes;
  openmeteo_api : result bytes
}.

(** Code that reads and writes the world and may raise. *)
Definition io (A : Type) : Type := world -> result A * world.

Definition io_bind {A B : Type} (m : io A) (k : A -> io B) : io B :=
  fun w =>
    match m w with
    | (Ok a, w') => k a w'
    | (Raise e, w') => (Raise e, w')
    end.

Definition lift {A : Type} (r : result A) : io A := fun w => (r, w).

Notation "'let!' x ':=' m 'in' k" := (io_bind m (fun x => k))
  (at level 10, x pattern, m at level 100, k at level 200) : py_scope.

Definition urlopen (c : call) (answer : result bytes) : io bytes :=
  fun w => (answer, {| cache := cache w; calls := c :: calls w |}).

Inductive cache_status : Set := HIT | MISS.

(** ** The cache *)

Definition cache_is_valid (E : env) (w : world) : bool :=
  let cache_age := time E - timestamp (cache w) in
  bool_decide (is_Some (data (cache w))) && (cache_age <? CACHE_DURATION).

(** The seconds of validity left, which a hit prints with [int(...)]. *)
Definition seconds_left (E : env) (w : world) : float :=
  CACHE_DURATION - (time E - timestamp (cache w)).

(** The messages go to the console and are left out of the model; the
    [int(...)] inside the message of a hit is kept, because it can
    raise. *)
Definition get_nodes_data (E : env) : io (bytes * cache_status) :=
  fun w =>
    let current_time := time E in
    match (if cache_is_valid E w then data (cache w) else None) with
    | Some stored =>
        match F.to_int (seconds_left E w) with
        | Ok _ => (Ok (stored, HIT), w)
        | Raise e => (Raise e, w)
        end
    | None =>
        match urlopen UrlopenNodes (nodes_api E) w with
        | (Ok fresh, w') =>
            (Ok (fresh, MISS),
             {| cache := {| data := Some fresh; timestamp := current_time |};
                calls := calls w' |})
        | (Raise e, w') => (Raise e, w')
        end
    end.

Definition fetch_openmeteo_current (E : env) (lat lon : float) : io json :=
  let! raw := urlopen (UrlopenOpenMeteo lat lon) (openmeteo_api E) in
  lift (let* payload := json_loads raw in
        dict_get_or_empty payload "current").

(** ** Requests and responses *)

(** The values [parse_qs] lists under a key: there is always a first. *)
Record values : Type := {
  first_value : string;
  more_values : list string
}.

Inductive error_message : Type :=
| InvalidCoordinates
| MissingParameters
| NoNodeFound
| ExceptionText (e : exn).

Record api_payload : Type := {
  lat : float;
  long : float;
  node_name : json;
  distance_km_rounded : float;
  temperature : json;
  relative_humidity : json;
  barometric_pressure : json;
  updated_at : json;
  checked_with_openmeteo : bool;
  check_diff_temperature : option float
}.

Inductive body : Type :=
| ErrorBody (m : error_message)
| ApiBody (p : api_payload)
| NodesBody (raw : bytes).

Record response : Type := {
  status : Z;
  content : body;
  x_cache_status : option cache_status
}.

(** The first line of [send_json],
    [json.dumps(payload, ensure_ascii=False).encode('utf-8')].  A payload
    is built from decoded JSON values and floats, which [json.dumps]
    serialises (NaN and infinities included); the encoding raises
    [UnicodeEncodeError], a [ValueError], when a text of the payload
    holds a surrogate.  The error bodies hold none: the messages are
    fixed, and the text of an exception shows such a character
    escaped. *)
Definition encode (payload : body) : result body :=
  match payload with
  | ApiBody p =>
      if encodable (node_name p) && encodable (temperature p)
         && encodable (relative_humidity p) && encodable (barometric_pressure p)
         && encodable (updated_at p)
      then Ok payload
      else Raise ValueError
  | _ => Ok payload
  end.

(** [send_json] once the payload is encoded: the response is kept as
    status, payload and the [X-Cache-Status] header; the other headers
    are constant. *)
Definition send_json (payload : body) (status : Z)
    (cache_header : option cache_status) : response :=
  {| status := status; content := payload; x_cache_status := cache_header |}.

Definition parse_coordinate (query_params : gmap string values)
    (primary : string) (fallback : option string) : result (option float) :=
  let value := first_value <$> query_params !! primary in
  let value :=
    match value, fallback with
    | None, Some other =>
        if String.eqb other "" then value
        else first_value <$> query_params !! other
    | _, _ => value
    end in
  match value with
  | None => Ok None
  | Some text => let* x := FloatSyntax.parse text in Ok (Some x)
  end.

(** [handle_api], second [try]: what is read from upstream before a
    node is selected. *)
Definition api_inputs (E : env) (user_lat user_lon : float)
    : io (json * json * cache_status) :=
  let! (raw_nodes, status_of_cache) := get_nodes_data E in
  let! nodes := lift (json_loads raw_nodes) in
  let! openmeteo_current := fetch_openmeteo_current E user_lat user_lon in
  lift (Ok (nodes, openmeteo_current, status_of_cache)).

(** [handle_api], second [try]: the selected node with its
    [match_details], or [None] where the handler answers 404. *)
Definition select_node (user_lat user_lon : float)
    (nodes openmeteo_current : json)
    : result (option (json * float * option float)) :=
  let* best :=
    find_best_matching_node user_lat user_lon nodes openmeteo_current in
  let by_distance_only :=
    let* (nearest, distance) := find_nearest_node user_lat user_lon nodes in
    Ok (match nearest with
        | Some n => if truthy n then Some (n, distance, None) else None
        | None => None
        end) in
  match best with
  | Some details =>
      if truthy (node details)
      then Ok (Some (node details, distance_km details,
                     Some (temp_diff details)))
      else by_distance_only
  | None => by_distance_only
  end.

(** [handle_api], second [try]: the response to a request whose
    upstream documents have arrived. *)
Definition api_response (user_lat user_lon : float)
    (nodes openmeteo_current : json) (status_of_cache : cache_status)
    : result response :=
  let* selection := select_node user_lat user_lon nodes openmeteo_current in
  match selection with
  | None => Ok (send_json (ErrorBody NoNodeFound) 404 None)
  | Some (selected_node, distance, diff) =>
      let* long_name := dict_get selected_node "long_name" in
      let* name :=
        if truthy long_name then Ok long_name
        else dict_get selected_node "short_name" in
      let* node_temperature := dict_get selected_node "temperature" in
      let* node_humidity := dict_get selected_node "relative_humidity" in
      let* node_pressure := dict_get selected_node "barometric_pressure" in
      let* node_updated := dict_get selected_node "updated_at" in
      let* encoded :=
        encode
          (ApiBody
             {| lat := user_lat;
                long := user_lon;
                node_name := py_or name (JStr "Unbekannt");
                distance_km_rounded := F.round2 distance;
                temperature := node_temperature;
                relative_humidity := node_humidity;
                barometric_pressure := node_pressure;
                updated_at := node_updated;
                checked_with_openmeteo := true;
                check_diff_temperature := F.round2 <$> diff |}) in
      Ok (send_json encoded 200 (Some status_of_cache))
  end.

Definition api_answer (E : env) (user_lat user_lon : float) : io response :=
  let! (nodes, openmeteo_current, status_of_cache) :=
    api_inputs E user_lat user_lon in
  lift (api_response user_lat user_lon nodes openmeteo_current status_of_cache).

(** What a handler leaves behind: a response, or an exception nobody
    caught. *)
Inductive outcome : Type :=
| Sent (r : response)
| Uncaught (e : exn).

Definition handle_api (E : env) (query_params : gmap string values)
    (w : world) : outcome * world :=
  match
    (let* user_lat := parse_coordinate query_params "lat" None in
     let* user_lon := parse_coordinate query_params "long" (Some "lon") in
     Ok (user_lat, user_lon))
  with
  | Raise ValueError =>
      (Sent (send_json (ErrorBody InvalidCoordinates) 400 None), w)
  | Raise e => (Uncaught e, w)
  | Ok (Some user_lat, Some user_lon) =>
      match api_answer E user_lat user_lon w with
      | (Ok r, w') => (Sent r, w')
      | (Raise e, w') =>
          (Sent (send_json (ErrorBody (ExceptionText e)) 500 None), w')
      end
  | Ok _ => (Sent (send_json (ErrorBody MissingParameters) 400 None), w)
  end.

(** [proxy_nodes]: the stored bytes with the cache header, or the error
    page of [send_error(500, str(e))]. *)
Definition proxy_nodes (E : env) (w : world) : outcome * world :=
  match get_nodes_data E w with
  | (Ok (raw, status_of_cache), w') =>
      (Sent {| status := 200; content := NodesBody raw;
               x_cache_status := Some status_of_cache |}, w')
  | (Raise e, w') =>
      (Sent {| status := 500; content := ErrorBody (ExceptionText e);
               x_cache_status := None |}, w')
  end.
End Prox.

(** * A reference C library

    Polynomial stand-ins for the C functions, good to a few units in the
    last place for angles up to a half turn.  They serve to run the
    model on concrete requests; no theorem about an arbitrary [libm]
    depends on them. *)
Module Reference.
Local Open Scope float_scope.

Definition sin_poly (x2 : float) : float :=
  1 - x2 / 6 * (1 - x2 / 20 * (1 - x2 / 42 * (1 - x2 / 72 * (1 - x2 / 110 *
  (1 - x2 / 156 * (1 - x2 / 210 * (1 - x2 / 272 * (1 - x2 / 342 *
  (1 - x2 / 420))))))))).

Definition cos_poly (x2 : float) : float :=
  1 - x2 / 2 * (1 - x2 / 12 * (1 - x2 / 30 * (1 - x2 / 56 * (1 - x2 / 90 *
  (1 - x2 / 132 * (1 - x2 / 182 * (1 - x2 / 240 * (1 - x2 / 306 *
  (1 - x2 / 380))))))))).

Definition sin (x : float) : float := x * sin_poly (x * x).

Definition cos (x : float) : float :=
  let r := cos_poly (x * x) in
  if abs r <=? 1 then r else 1.

Definition atan_poly (x2 : float) : float :=
  1 - x2 * (1 / 3 - x2 * (1 / 5 - x2 * (1 / 7 - x2 * (1 / 9 - x2 *
  (1 / 11 - x2 * (1 / 13 - x2 * (1 / 15 - x2 * (1 / 17 - x2 *
  (1 / 19 - x2 / 21))))))))).

(** [atan t] for [|t| <= 1], by halving the angle twice. *)
Definition atan_unit (t : float) : float :=
  let u := t / (1 + PrimFloat.sqrt (1 + t * t)) in
  let v := u / (1 + PrimFloat.sqrt (1 + u * u)) in
  4 * (v * atan_poly (v * v)).

Definition pi : float := 0x1.921fb54442d18p+1.

Definition atan2 (y x : float) : float :=
  if abs y <=? abs x then
    if x =? 0 then y
    else
      let r := atan_unit (y / x) in
      if 0 <? x then r else if y <? 0 then r - pi else r + pi
  else
    let r := atan_unit (x / y) in
    if 0 <? y then pi / 2 - r else - (pi / 2) - r.

Definition pow (x y : float) : float :=
  if y =? 2 then x * x else nan.

Definition C : libm :=
  {| c_sin := sin; c_cos := cos; c_atan2 := atan2; c_pow := pow |}.
End Reference.

(** * The script of the page

    [serve_html] sends a page whose script holds a second copy of the
    distance formula, [calculateDistance].  It is modelled on numbers,
    which are binary64 floats in JavaScript as well, and no operation of
    it throws.  [Math.sin], [Math.cos], [Math.atan2] and [Math.sqrt] are
    approximations the engine chooses; they are taken as a record. *)
Record js_math : Type := {
  js_sin : float -> float;
  js_cos : float -> float;
  js_atan2 : float -> float -> float;
  js_sqrt : float -> float
}.

Module Js.
Local Open Scope float_scope.

(** [Math.PI] *)
Definition PI : float := 0x1.921fb54442d18p+1.

(** [calculateDistance] of the page's script, on numbers. *)
Definition calculateDistance (J : js_math) (lat1 lon1 lat2 lon2 : float) : float :=
  let R := 6371 in
  let dLat := (lat2 - lat1) * PI / 180 in
  let dLon := (lon2 - lon1) * PI / 180 in
  let a := js_sin J (dLat / 2) * js_sin J (dLat / 2) +
           js_cos J (lat1 * PI / 180) * js_cos J (lat2 * PI / 180) *
           js_sin J (dLon / 2) * js_sin J (dLon / 2) in
  let c := 2 * js_atan2 J (js_sqrt J a) (js_sqrt J (1 - a)) in
  R * c.
End Js.

(** The reference functions as the [Math] object of an engine. *)
Definition reference_js : js_math :=
  {| js_sin := Reference.sin; js_cos := Reference.cos;
     js_atan2 := Reference.atan2; js_sqrt := PrimFloat.sqrt |}.

(** * Vocabulary of the specification *)

Local Open Scope float_scope.

(** A required field of a station holds a value. *)
Definition present (n : json) (k : string) : bool :=
  match dict_get n k with
  | Ok v => negb (is_None v)
  | Raise _ => false
  end.

(** A candidate station: all five required fields hold a value. *)
Definition complete (n : json) : bool :=
  present n "latitude" && present n "longitude" && present n "temperature"
  && present n "relative_humidity" && present n "barometric_pressure".

Definition has_coordinates (n : json) : bool :=
  present n "latitude" && present n "longitude".

Definition is_dict (j : json) : bool :=
  match j with JObj _ => true | _ => false end.

(** What the selector records for a station that is a candidate: its
    distance to the user and the deviation of its temperature from the
    reference, [0.0] when there is no reference. *)
Definition measure (M : libm) (user_lat user_lon : float) (ref_temp : json)
    (n : json) : result candidate :=
  let* node_lat := dict_get n "latitude" in
  let* node_lon := dict_get n "longitude" in
  let* node_temp := dict_get n "temperature" in
  let* lat := py_float node_lat in
  let* lon := py_float node_lon in
  let* distance := calculate_distance M user_lat user_lon lat lon in
  let* diff :=
    if is_None ref_temp then Ok 0
    else
      let* t := py_float node_temp in
      let* r := py_float ref_temp in
      Ok (abs (t - r)) in
  Ok {| node := n; distance_km := distance; temp_diff := diff |}.

Definition measured (M : libm) (user_lat user_lon : float) (ref_temp : json)
    (c : candidate) : Prop :=
  complete (node c) = true /\
  measure M user_lat user_lon ref_temp (node c) = Ok c.

(** The tolerance of two degrees. *)
Definition within_tolerance (c : candidate) : bool := temp_diff c <=? 2.



(** [best] is the first item of [cs] at the least distance: the items
    before it are strictly farther, the items behind it are not nearer. *)
Definition nearest_first (cs : list candidate) (best : candidate) : Prop :=
  exists pre post, cs = pre ++ best :: post /\
    Forall (fun c => (distance_km best <? distance_km c) = true) pre /\
    Forall (fun c => (distance_km best <=? distance_km c) = true) post.


(** The text [parse_coordinate] converts for [lat] and for [long]. *)
Definition lat_text (q : gmap string values) : option string :=
  first_value <$> q !! "lat".

Definition long_text (q : gmap string values) : option string :=
  match q !! "long" with
  | Some v => Some (first_value v)
  | None => first_value <$> q !! "lon"
  end.

(** A coordinate is missing, or [float] rejects its text. *)
Definition unusable (text : option string) : Prop :=
  match text with
  | None => True
  | Some t => FloatSyntax.parse t = Raise ValueError
  end.

(** What the proofs about [calculate_distance] ask of the C library:
    [sin] is odd and exact at zero, [cos] stays within [[-1, 1]], and
    [atan2(0, 1)] is zero. *)
Record libm_laws (M : libm) : Prop := {
  sin_odd : forall x, c_sin M (- x) = - c_sin M x;
  sin_zero : c_sin M 0 = 0;
  cos_bounded : forall x, is_finite x = true -> (abs (c_cos M x) <=? 1) = true;
  atan2_zero : c_atan2 M 0 1 = 0
}.

(** [sin(radians(d) / 2) ** 2] *)
Definition half_chord (M : libm) (d : float) : result float :=
  let* s := Math.sin M (Math.radians d / 2) in Math.square M s.

(** The first item of a list that no item is smaller than, for a
    comparison [lt] of keys. *)
Inductive least_first {A K : Type} (lt : K -> K -> bool) (key : A -> K)
    : list A -> A -> Prop :=
| LeastFirst pre x post :
    Forall (fun y => lt (key x) (key y) = true) pre ->
    Forall (fun y => lt (key y) (key x) = false) post ->
    least_first lt key (pre ++ x :: post) x.

(** One step of a scan for the least item. *)
Definition least_step {A K : Type} (lt : K -> K -> bool) (key : A -> K)
    (best : option A) (x : A) : option A :=
  match best with
  | None => Some x
  | Some b => if lt (key x) (key b) then Some x else Some b
  end.

(** The comparison of two floats, [None] when one is NaN. *)
Definition cmp (x y : float) : option comparison :=
  SFcompare (Prim2SF x) (Prim2SF y).

Definition le_cmp (c : comparison) : bool :=
  match c with Gt => false | _ => true end.

Definition join (c1 c2 : comparison) : comparison :=
  match c1, c2 with Eq, Eq => Eq | _, _ => Lt end.

(** [is_finite] on the side of the IEEE specification. *)
Definition SFfinite (x : spec_float) : bool :=
  match x with
  | S754_zero _ | S754_finite _ _ _ => true
  | _ => false
  end.

(** ** Vocabulary of the further properties *)


(** The distance [find_nearest_node] computes for a station. *)
Definition distance_to (M : libm) (user_lat user_lon : float) (n : json)
    : result float :=
  let* node_lat := dict_get n "latitude" in
  let* node_lon := dict_get n "longitude" in
  let* lat := py_float node_lat in
  let* lon := py_float node_lon in
  calculate_distance M user_lat user_lon lat lon.

(** A station with coordinates is not nearer than [d] ([strictly]: is
    farther than [d]); a distance that is NaN counts as not nearer. *)
Definition not_nearer (M : libm) (user_lat user_lon d : float)
    (strictly : bool) (n : json) : Prop :=
  has_coordinates n = true ->
  exists dn, distance_to M user_lat user_lon n = Ok dn /\
             (if strictly then dn <=? d else dn <? d) = false.

(** What [find_nearest_node] returns for a selection of the selector. *)
Definition as_nearest (sel : option candidate) : option json * float :=
  match sel with
  | Some best => (Some (node best), distance_km best)
  | None => (None, infinity)
  end.

(** The cache after a request: as it was, or the body just fetched for
    want of a valid entry, with the time of the request. *)
Definition kept_or_refreshed (E : env) (w w' : world) : Prop :=
  cache w' = cache w \/
  (cache_is_valid E w = false /\
   exists fresh, nodes_api E = Ok fresh /\
     cache w' = {| data := Some fresh; timestamp := time E |}).

(** The document [fetch_openmeteo_current] makes of an answer. *)
Definition openmeteo_document (answer : result bytes) : result json :=
  let* raw := answer in
  let* payload := json_loads raw in
  dict_get_or_empty payload "current".

(** What the proofs about [Js.calculateDistance] ask of the engine. *)
Record js_math_laws (J : js_math) : Prop := {
  js_sin_odd : forall x, js_sin J (- x) = - js_sin J x;
  js_sin_zero : js_sin J 0 = 0;
  js_cos_bounded :
    forall x, is_finite x = true -> (abs (js_cos J x) <=? 1) = true;
  js_sqrt_zero : js_sqrt J 0 = 0;
  js_sqrt_one : js_sqrt J 1 = 1;
  js_atan2_zero : js_atan2 J 0 1 = 0
}.

(** [sin(d * PI / 180 / 2)], squared by a product. *)
Definition js_half_chord (J : js_math) (d : float) : float :=
  js_sin J (d * Js.PI / 180 / 2) * js_sin J (d * Js.PI / 180 / 2).

(** * Requests used as examples *)

Module Example.
Definition obj (fields : list (string * json)) : json :=
  JObj (list_to_map fields).

(** A station on the meridian of the user, [lat] degrees north. *)
Definition station (name : string) (lat : float) (temp : json) : json :=
  obj [("long_name", JStr name);
       ("latitude", JFloat lat);
       ("longitude", JFloat 10.1);
       ("temperature", temp);
       ("relative_humidity", JInt 50);
       ("barometric_pressure", JFloat 1013.2);
       ("updated_at", JStr "2025-01-01T12:00:00Z")].

(** A station that reports no position. *)
Definition adrift : json :=
  obj [("long_name", JStr "adrift"); ("temperature", JFloat 18);
       ("relative_humidity", JInt 50); ("barometric_pressure", JFloat 1013.2)].

Definition user_lat : float := 52.1.
Definition user_lon : float := 10.1.

(** Stations about 3, 5, 10 and 20 km north of the user. *)
Definition three : json := station "three" 52.127 (JFloat 18).
Definition three_twin : json := station "three again" 52.127 (JFloat 18).
Definition five_warm : json := station "five" 52.145 (JFloat 22).
Definition ten : json := station "ten" 52.19 (JFloat 18).
Definition bare : json := station "bare" 52.127 JNull.

Definition reference (t : json) : json := obj [("temperature_2m", t)].
Definition no_reference : json := obj [].

Definition one (text : string) : values :=
  {| first_value := text; more_values := [] |}.

Definition query (lat long : string) : gmap string values :=
  list_to_map [("lat"%string, one lat); ("long"%string, one long)].

Definition start : world := {| cache := cache_init; calls := [] |}.

Definition upstream (now : float) (nodes : list json) (current : json) : env :=
  {| time := now;
     nodes_api := Ok (Encoded (JArr nodes));
     openmeteo_api := Ok (Encoded (obj [("current", current)])) |}.

Definition down (now : float) : env :=
  {| time := now; nodes_api := Raise URLError; openmeteo_api := Raise URLError |}.

(** The world after one request that read both services at [now]. *)
Definition after (now : float) (nodes : list json) : world :=
  {| cache := {| data := Some (Encoded (JArr nodes)); timestamp := now |};
     calls := [UrlopenOpenMeteo user_lat user_lon; UrlopenNodes] |}.

(** The candidates of a list of stations, the empty list if the loop
    raises. *)
Definition candidates (ref_temp : json) (nodes : list json) : list candidate :=
  match collect_candidates Reference.C user_lat user_lon ref_temp nodes with
  | Ok cs => cs
  | Raise _ => []
  end.

(** A user at 65.28 S, 88.13 E, and a station at the antipode. *)
Definition south : float := -65.28.
Definition east : float := 88.13.

Definition antipode (temp : json) : json :=
  obj [("long_name", JStr "antipode");
       ("latitude", JFloat 65.28);
       ("longitude", JFloat (-91.87));
       ("temperature", temp);
       ("relative_humidity", JInt 50);
       ("barometric_pressure", JFloat 1013.2);
       ("updated_at", JStr "2025-01-01T12:00:00Z")].

(** The world after one request of that user that read both services. *)
Definition after_south (now : float) (nodes : list json) : world :=
  {| cache := {| data := Some (Encoded (JArr nodes)); timestamp := now |};
     calls := [UrlopenOpenMeteo south east; UrlopenNodes] |}.

(** The text that [json.loads] makes of the escape [\ud800]: a surrogate
    on its own. *)
Definition lone_surrogate : string :=
  String "237" (String "160" (String "128" EmptyString)).

Definition answer (name : string) (temp : json) (diff : option float)
    : api_payload :=
  {| lat := user_lat;
     long := user_lon;
     node_name := JStr name;
     distance_km_rounded := 3;
     temperature := temp;
     relative_humidity := JInt 50;
     barometric_pressure := JFloat 1013.2;
     updated_at := JStr "2025-01-01T12:00:00Z";
     checked_with_openmeteo := true;
     check_diff_temperature := diff |}.
End Example.

(** * Facts about IEEE arithmetic

    The lemmas are proved on the specification side ([spec_float]) and
    carried to primitive floats through the axioms of [FloatAxioms]. *)

Module FloatFacts.
Local Open Scope Z_scope.

Ltac fold_pos_compare :=
  repeat match goal with
  | |- context [PosDef.Pos.compare_cont Eq ?a ?b] =>
      change (PosDef.Pos.compare_cont Eq a b) with (Pos.compare a b)
  | H : context [PosDef.Pos.compare_cont Eq ?a ?b] |- _ =>
      change (PosDef.Pos.compare_cont Eq a b) with (Pos.compare a b) in H
  end.

Ltac cmp_cases :=
  repeat match goal with
  | H : context [Z.compare ?a ?b] |- _ => destruct (Z.compare_spec a b); simpl in H
  | H : context [Pos.compare ?a ?b] |- _ => destruct (Pos.compare_spec a b); simpl in H
  | |- context [Z.compare ?a ?b] => destruct (Z.compare_spec a b); simpl
  | |- context [Pos.compare ?a ?b] => destruct (Pos.compare_spec a b); simpl
  end.

Lemma SFcompare_swap x y :
  SFcompare y x = option_map CompOpp (SFcompare x y).
Proof.
  destruct x as [[]|[]| |[] mx ex], y as [[]|[]| |[] my ey]; simpl; try reflexivity;
    fold_pos_compare; cmp_cases; try reflexivity; subst; try lia.
Qed.

Lemma SFcompare_trans x y z c1 c2 :
  SFcompare x y = Some c1 -> SFcompare y z = Some c2 ->
  le_cmp c1 = true -> le_cmp c2 = true ->
  SFcompare x z = Some (join c1 c2).
Proof.
  destruct x as [[]|[]| |[] mx ex], y as [[]|[]| |[] my ey], z as [[]|[]| |[] mz ez];
    simpl; intros H1 H2 L1 L2; try discriminate;
    injection H1 as <-; injection H2 as <-; simpl in *; try discriminate; try reflexivity;
    fold_pos_compare; cmp_cases; simpl in *;
    try discriminate; try reflexivity; subst; try lia.
Qed.

Lemma ltb_cmp x y : PrimFloat.ltb x y = true <-> cmp x y = Some Lt.
Proof.
  rewrite FloatAxioms.ltb_spec. unfold SFltb, cmp.
  destruct (SFcompare _ _) as [[]|]; split; congruence.
Qed.


Lemma leb_cmp x y :
  PrimFloat.leb x y = true <-> cmp x y = Some Lt \/ cmp x y = Some Eq.
Proof.
  rewrite FloatAxioms.leb_spec. unfold SFleb, cmp.
  destruct (SFcompare _ _) as [[]|]; split; intros; try tauto; try congruence;
    destruct H; congruence.
Qed.

Lemma cmp_swap x y : cmp y x = option_map CompOpp (cmp x y).
Proof. apply SFcompare_swap. Qed.

Lemma cmp_trans x y z c1 c2 :
  cmp x y = Some c1 -> cmp y z = Some c2 ->
  le_cmp c1 = true -> le_cmp c2 = true -> cmp x z = Some (join c1 c2).
Proof. apply SFcompare_trans. Qed.

Lemma is_nan_Prim2SF x : is_nan x = true <-> Prim2SF x = S754_nan.
Proof.
  unfold is_nan. rewrite FloatAxioms.eqb_spec. unfold SFeqb.
  destruct (Prim2SF x) as [[]|[]| |[] m e]; simpl; split; try congruence;
    fold_pos_compare; rewrite ?Z.compare_refl, ?Pos.compare_refl; simpl; congruence.
Qed.

Lemma cmp_total x y :
  is_nan x = false -> is_nan y = false -> exists c, cmp x y = Some c.
Proof.
  intros Hx Hy.
  assert (Prim2SF x <> S754_nan) by (rewrite <- is_nan_Prim2SF; congruence).
  assert (Prim2SF y <> S754_nan) by (rewrite <- is_nan_Prim2SF; congruence).
  unfold cmp.
  destruct (Prim2SF x) as [[]|[]| |[] mx ex], (Prim2SF y) as [[]|[]| |[] my ey];
    simpl; eauto; congruence.
Qed.

Lemma cmp_not_nan x y c : cmp x y = Some c -> is_nan x = false /\ is_nan y = false.
Proof.
  unfold cmp. intros H.
  split; apply not_true_is_false; rewrite is_nan_Prim2SF; intros E; rewrite E in H;
    [discriminate|].
  destruct (Prim2SF x); discriminate.
Qed.

(** a < b, b < c gives a < c *)
Lemma ltb_trans x y z :
  PrimFloat.ltb x y = true -> PrimFloat.ltb y z = true -> PrimFloat.ltb x z = true.
Proof.
  rewrite !ltb_cmp. intros H1 H2. apply (cmp_trans _ _ _ _ _ H1 H2); reflexivity.
Qed.

(** a < b and not (c < b), c not NaN, give a < c *)
Lemma ltb_nltb_trans x y z :
  is_nan z = false ->
  PrimFloat.ltb x y = true -> PrimFloat.ltb z y = false -> PrimFloat.ltb x z = true.
Proof.
  intros Hz H1 H2. rewrite ltb_cmp in H1.
  destruct (cmp_not_nan _ _ _ H1) as [_ Hy].
  destruct (cmp_total y z Hy Hz) as [c Hc].
  assert (le_cmp c = true).
  { destruct c; try reflexivity. exfalso.
    assert (PrimFloat.ltb z y = true); [|congruence].
    rewrite ltb_cmp, cmp_swap, Hc. reflexivity. }
  rewrite ltb_cmp. rewrite (cmp_trans _ _ _ _ _ H1 Hc); [|reflexivity|assumption].
  reflexivity.
Qed.

Lemma nltb_leb x y :
  is_nan x = false -> is_nan y = false ->
  PrimFloat.ltb y x = false -> PrimFloat.leb x y = true.
Proof.
  intros Hx Hy H. destruct (cmp_total x y Hx Hy) as [c Hc].
  rewrite leb_cmp. destruct c; auto. exfalso.
  assert (PrimFloat.ltb y x = true); [|congruence].
  rewrite ltb_cmp, cmp_swap, Hc. reflexivity.
Qed.

Lemma leb_nltb x y : PrimFloat.leb x y = true -> PrimFloat.ltb y x = false.
Proof.
  rewrite leb_cmp. intros H. apply not_true_is_false. rewrite ltb_cmp, cmp_swap.
  destruct H as [-> | ->]; discriminate.
Qed.

Lemma ltb_leb x y : PrimFloat.ltb x y = true -> PrimFloat.leb x y = true.
Proof. rewrite ltb_cmp, leb_cmp. auto. Qed.

Local Open Scope float_scope.



Lemma leb_of_cmp x y c :
  cmp x y = Some c -> (x <=? y) = match c with Gt => false | _ => true end.
Proof.
  intros H. destruct (x <=? y) eqn:E.
  - apply leb_cmp in E. destruct E as [E|E]; rewrite E in H; injection H as <-; reflexivity.
  - destruct c; try reflexivity; exfalso;
      assert ((x <=? y) = true) by (apply leb_cmp; auto); congruence.
Qed.






Local Close Scope float_scope.

Lemma binary_round_aux_opp s m e l :
  binary_round_aux prec emax (negb s) m e l = SFopp (binary_round_aux prec emax s m e l).
Proof.
  unfold binary_round_aux.
  destruct (shr_fexp prec emax m e l) as [mrs' e'].
  destruct (shr_fexp prec emax _ e' loc_Exact) as [mrs'' e''].
  destruct (shr_m mrs''); [reflexivity| |reflexivity].
  destruct (e'' <=? emax - prec); reflexivity.
Qed.

Lemma binary_round_opp s m e :
  binary_round prec emax (negb s) m e = SFopp (binary_round prec emax s m e).
Proof.
  unfold binary_round. destruct (shl_align _ _ _) as [mz ez]. apply binary_round_aux_opp.
Qed.

Lemma binary_normalize_opp m e :
  m <> 0 ->
  binary_normalize prec emax (- m) e false = SFopp (binary_normalize prec emax m e false).
Proof.
  destruct m as [|p|p]; intros H; [congruence| |]; simpl.
  - apply (binary_round_opp false).
  - rewrite <- (binary_round_opp true). reflexivity.
Qed.

Lemma SFmul_opp_l x y :
  SFmul prec emax (SFopp x) y = SFopp (SFmul prec emax x y).
Proof.
  destruct x as [sx|sx| |sx mx ex], y as [sy|sy| |sy my ey]; simpl;
    rewrite <- ?negb_xorb_l; try reflexivity.
  apply binary_round_aux_opp.
Qed.

Lemma SFmul_comm x y : SFmul prec emax x y = SFmul prec emax y x.
Proof.
  destruct x as [sx|sx| |sx mx ex], y as [sy|sy| |sy my ey]; simpl;
    rewrite ?(xorb_comm sx sy); try reflexivity.
  rewrite (Pos.mul_comm mx my), (Z.add_comm ex ey). reflexivity.
Qed.

Lemma SFdiv_opp_l x y :
  SFdiv prec emax (SFopp x) y = SFopp (SFdiv prec emax x y).
Proof.
  destruct x as [sx|sx| |sx mx ex], y as [sy|sy| |sy my ey]; simpl;
    rewrite <- ?negb_xorb_l; try reflexivity.
  destruct (SFdiv_core_binary _ _ _ _ _ _) as [[mz ez] lz]. apply binary_round_aux_opp.
Qed.

Lemma SFsub_swap x y :
  SFsub prec emax y x = SFopp (SFsub prec emax x y)
  \/ (SFsub prec emax x y = S754_zero false /\ SFsub prec emax y x = S754_zero false).
Proof.
  destruct x as [[]|[]| |sx mx ex], y as [[]|[]| |sy my ey]; simpl; auto;
    try (left; rewrite negb_involutive; reflexivity).
  rewrite (Z.min_comm ey ex).
  set (a := cond_Zopp sx (Z.pos (fst (shl_align mx ex (Z.min ex ey))))).
  set (b := cond_Zopp sy (Z.pos (fst (shl_align my ey (Z.min ex ey))))).
  destruct (Z.eq_dec (a - b) 0) as [E|E].
  - right. replace (b - a) with 0 by lia. rewrite E. auto.
  - left. replace (b - a) with (- (a - b)) by lia. apply binary_normalize_opp, E.
Qed.

Lemma SFsub_diag x :
  match x with S754_zero _ | S754_finite _ _ _ => True | _ => False end ->
  SFsub prec emax x x = S754_zero false.
Proof.
  destruct x as [[]|[]| |s m e]; simpl; try tauto; intros _.
  rewrite Z.sub_diag. reflexivity.
Qed.

(** The same on primitive floats. *)
Local Open Scope float_scope.

Lemma mul_opp_l x y : (- x) * y = - (x * y).
Proof. apply Prim2SF_inj. rewrite mul_spec, !opp_spec, mul_spec. apply SFmul_opp_l. Qed.

Lemma mul_comm x y : x * y = y * x.
Proof. apply Prim2SF_inj. rewrite !mul_spec. apply SFmul_comm. Qed.

Lemma div_opp_l x y : (- x) / y = - (x / y).
Proof. apply Prim2SF_inj. rewrite div_spec, !opp_spec, div_spec. apply SFdiv_opp_l. Qed.

Lemma sub_swap x y : y - x = - (x - y) \/ (x - y = 0 /\ y - x = 0).
Proof.
  destruct (SFsub_swap (Prim2SF x) (Prim2SF y)) as [H|[H1 H2]].
  - left. apply Prim2SF_inj. rewrite opp_spec, !sub_spec. exact H.
  - right. split; apply Prim2SF_inj; rewrite sub_spec; assumption.
Qed.

Lemma opp_involutive x : - - x = x.
Proof.
  apply Prim2SF_inj. rewrite !opp_spec. destruct (Prim2SF x); simpl;
    rewrite ?negb_involutive; reflexivity.
Qed.

Lemma abs_opp x : abs (- x) = abs x.
Proof.
  apply Prim2SF_inj. rewrite !abs_spec, opp_spec. destruct (Prim2SF x); reflexivity.
Qed.

Lemma is_nan_SF x :
  is_nan x = match Prim2SF x with S754_nan => true | _ => false end.
Proof.
  unfold is_nan. rewrite FloatAxioms.eqb_spec. unfold SFeqb.
  destruct (Prim2SF x) as [[]|[]| |[] m e]; simpl; try reflexivity;
    rewrite Z.compare_refl; fold_pos_compare; rewrite Pos.compare_refl; reflexivity.
Qed.

Lemma is_nan_opp x : is_nan (- x) = is_nan x.
Proof. rewrite !is_nan_SF, opp_spec. destruct (Prim2SF x); reflexivity. Qed.

Lemma is_infinity_opp x : is_infinity (- x) = is_infinity x.
Proof. unfold is_infinity. rewrite abs_opp. reflexivity. Qed.

Lemma is_finite_opp x : is_finite (- x) = is_finite x.
Proof. unfold is_finite. rewrite is_nan_opp, is_infinity_opp. reflexivity. Qed.

Lemma is_finite_SF x : is_finite x = SFfinite (Prim2SF x).
Proof.
  unfold is_finite, is_nan, is_infinity.
  rewrite !FloatAxioms.eqb_spec, abs_spec.
  change (Prim2SF infinity) with (S754_infinity false).
  destruct (Prim2SF x) as [[]|[]| |[] m e]; simpl; try reflexivity;
    unfold SFeqb; simpl; rewrite Z.compare_refl; fold_pos_compare;
    rewrite Pos.compare_refl; reflexivity.
Qed.

Lemma sub_diag x : is_finite x = true -> x - x = 0.
Proof.
  rewrite is_finite_SF. intros H. apply Prim2SF_inj. rewrite sub_spec.
  change (Prim2SF 0) with (S754_zero false). apply SFsub_diag.
  destruct (Prim2SF x); simpl in *; auto; discriminate.
Qed.

Local Close Scope float_scope.

Lemma digits2_size p : digits2_pos p = Pos.size p.
Proof. induction p; simpl; congruence. Qed.

Lemma Zdigits2_nonneg m : 0 <= Zdigits2 m.
Proof. destruct m; simpl; lia. Qed.

Lemma Zdigits2_bound m : 0 <= m -> m < 2 ^ Zdigits2 m.
Proof.
  destruct m as [|p|p]; simpl; [lia| |lia]. intros _.
  rewrite digits2_size. pose proof (Pos.size_gt p) as H.
  apply Pos2Z.pos_lt_pos in H. rewrite Pos2Z.inj_pow in H. exact H.
Qed.

Lemma Zdigits2_le m k : 0 <= m -> 0 <= k -> m < 2 ^ k -> Zdigits2 m <= k.
Proof.
  destruct m as [|p|p]; simpl; [lia| |lia]. intros _ Hk H.
  rewrite digits2_size. pose proof (Pos.size_le p) as Hs.
  apply Pos2Z.pos_le_pos in Hs. rewrite Pos2Z.inj_pow in Hs.
  assert (Hlt : 2 ^ Z.pos (Pos.size p) < 2 ^ (k + 1)).
  { replace (k + 1) with (Z.succ k) by lia. rewrite Z.pow_succ_r by assumption.
    change (Z.pos p~0) with (2 * Z.pos p) in Hs. lia. }
  apply Z.pow_lt_mono_r_iff in Hlt; lia.
Qed.

Lemma shr_1_bound mrs :
  0 <= shr_m mrs -> 0 <= shr_m (shr_1 mrs) /\ 2 * shr_m (shr_1 mrs) <= shr_m mrs.
Proof.
  destruct mrs as [m r s]. simpl. destruct m as [|[p|p|]|p]; simpl; lia.
Qed.

Lemma pow2_double p : 2 ^ Z.pos p~0 = 2 ^ Z.pos p * 2 ^ Z.pos p.
Proof. rewrite <- Z.pow_add_r by lia. f_equal. lia. Qed.

Lemma pow2_double_succ p : 2 ^ Z.pos p~1 = 2 * (2 ^ Z.pos p * 2 ^ Z.pos p).
Proof.
  replace (Z.pos p~1) with (Z.succ (Z.pos p~0)) by lia.
  rewrite Z.pow_succ_r, pow2_double by lia. reflexivity.
Qed.

Lemma iter_shr_bound p : forall mrs,
  0 <= shr_m mrs ->
  0 <= shr_m (SpecFloat.iter_pos shr_1 p mrs)
  /\ 2 ^ Z.pos p * shr_m (SpecFloat.iter_pos shr_1 p mrs) <= shr_m mrs.
Proof.
  induction p as [p IH|p IH|]; intros mrs H; simpl SpecFloat.iter_pos.
  - destruct (shr_1_bound mrs H) as [H0 H1].
    destruct (IH _ H0) as [H2 H3]. destruct (IH _ H2) as [H4 H5].
    split; [assumption|]. rewrite pow2_double_succ.
    assert (0 < 2 ^ Z.pos p) by (apply Z.pow_pos_nonneg; lia). nia.
  - destruct (IH _ H) as [H2 H3]. destruct (IH _ H2) as [H4 H5].
    split; [assumption|]. rewrite pow2_double.
    assert (0 < 2 ^ Z.pos p) by (apply Z.pow_pos_nonneg; lia). nia.
  - destruct (shr_1_bound mrs H). change (2 ^ 1) with 2. lia.
Qed.

Lemma shr_m_of_loc m l : shr_m (shr_record_of_loc m l) = m.
Proof. destruct l as [|[]]; reflexivity. Qed.

Lemma shr_fexp_bound m e l :
  0 <= m ->
  0 <= shr_m (fst (shr_fexp prec emax m e l))
  /\ snd (shr_fexp prec emax m e l) = Z.max e (fexp prec emax (Zdigits2 m + e))
  /\ 2 ^ (snd (shr_fexp prec emax m e l) - e) * shr_m (fst (shr_fexp prec emax m e l)) <= m.
Proof.
  intros Hm. unfold shr_fexp, shr.
  destruct (fexp prec emax (Zdigits2 m + e) - e) as [|p|p] eqn:E; simpl.
  - rewrite shr_m_of_loc. replace (Z.max _ _) with e by lia.
    rewrite Z.sub_diag. simpl. lia.
  - pose proof (iter_shr_bound p (shr_record_of_loc m l)) as H.
    rewrite shr_m_of_loc in H. destruct (H Hm) as [H1 H2].
    replace (e + Z.pos p - e) with (Z.pos p) by lia.
    split; [assumption|]. split; [lia|assumption].
  - rewrite shr_m_of_loc. replace (Z.max _ _) with e by lia.
    rewrite Z.sub_diag. simpl. lia.
Qed.

Lemma round_nearest_even_bound m l :
  m <= round_nearest_even m l <= m + 1.
Proof. destruct l as [|[]]; simpl; try lia. destruct (Z.even m); lia. Qed.

Lemma digits_after_shift m m' m1 k d :
  0 <= m' -> 0 <= k -> 0 <= d ->
  2 ^ k * m' <= m -> m < 2 ^ d -> 0 <= m1 <= m' + 1 ->
  Zdigits2 m1 <= Z.max (d - k) 0 + 1.
Proof.
  intros Hm' Hk Hd Hshift Hm Hm1.
  assert (Hpk : 0 < 2 ^ k) by (apply Z.pow_pos_nonneg; lia).
  apply Zdigits2_le; [lia|lia|].
  destruct (Z.le_gt_cases d k) as [Hdk|Hdk].
  - assert (2 ^ d <= 2 ^ k) by (apply Z.pow_le_mono_r; lia).
    assert (m' = 0) by nia. subst m'.
    replace (Z.max (d - k) 0) with 0 by lia. simpl. lia.
  - replace (Z.max (d - k) 0) with (d - k) by lia.
    assert (Hsplit : 2 ^ d = 2 ^ k * 2 ^ (d - k)).
    { rewrite <- Z.pow_add_r by lia. f_equal. lia. }
    assert (m' < 2 ^ (d - k)) by nia.
    replace (d - k + 1) with (Z.succ (d - k)) by lia.
    rewrite Z.pow_succ_r by lia. lia.
Qed.

(** Rounding cannot overflow a number below [2^(emax-1)]. *)
Lemma binary_round_aux_finite s m e l :
  0 <= m -> e <= emax - prec -> Zdigits2 m + e <= emax - 1 ->
  match binary_round_aux prec emax s m e l with
  | S754_zero s' | S754_finite s' _ _ => s' = s
  | _ => False
  end.
Proof.
  intros Hm He Hd. unfold binary_round_aux.
  pose proof (shr_fexp_bound m e l Hm) as (H1 & H2 & H3).
  destruct (shr_fexp prec emax m e l) as [mrs' e']. simpl in H1, H2, H3.
  set (m1 := round_nearest_even (shr_m mrs') (loc_of_shr_record mrs')).
  pose proof (round_nearest_even_bound (shr_m mrs') (loc_of_shr_record mrs')) as Hm1.
  fold m1 in Hm1.
  assert (Hm1' : 0 <= m1) by lia.
  pose proof (shr_fexp_bound m1 e' loc_Exact Hm1') as (H4 & H5 & H6).
  destruct (shr_fexp prec emax m1 e' loc_Exact) as [mrs'' e'']. simpl in H4, H5, H6.
  assert (Hd1 : Zdigits2 m1 <= Z.max (Zdigits2 m - (e' - e)) 0 + 1).
  { apply (digits_after_shift m (shr_m mrs')); try lia.
    - apply Zdigits2_nonneg.
    - apply Zdigits2_bound, Hm. }
  pose proof (Zdigits2_nonneg m). pose proof (Zdigits2_nonneg m1).
  unfold fexp, SpecFloat.emin, prec, emax in *.
  destruct (shr_m mrs'') as [|p|p]; [reflexivity| |lia].
  destruct (e'' <=? 1024 - 53) eqn:E; [reflexivity|].
  apply Z.leb_gt in E. lia.
Qed.
Lemma Zdigits2_mul p q :
  Zdigits2 (Z.pos (p * q)) <= Zdigits2 (Z.pos p) + Zdigits2 (Z.pos q).
Proof.
  pose proof (Zdigits2_nonneg (Z.pos p)). pose proof (Zdigits2_nonneg (Z.pos q)).
  apply Zdigits2_le; [lia|lia|].
  rewrite Z.pow_add_r by assumption.
  pose proof (Zdigits2_bound (Z.pos p)). pose proof (Zdigits2_bound (Z.pos q)).
  rewrite Pos2Z.inj_mul. nia.
Qed.

(** A product of two finite numbers whose exponents are small enough is
    finite, with the sign of the product. *)
Lemma SFmul_finite sx mx ex sy my ey :
  ex + ey <= emax - prec ->
  Zdigits2 (Z.pos mx) + ex + (Zdigits2 (Z.pos my) + ey) <= emax - 1 ->
  match SFmul prec emax (S754_finite sx mx ex) (S754_finite sy my ey) with
  | S754_zero s | S754_finite s _ _ => s = xorb sx sy
  | _ => False
  end.
Proof.
  intros He Hd. simpl. apply binary_round_aux_finite; [lia|assumption|].
  pose proof (Zdigits2_mul mx my). lia.
Qed.

Lemma valid_finite_digits s m e :
  valid_binary (S754_finite s m e) = true ->
  Zdigits2 (Z.pos m) <= prec /\ e <= emax - prec.
Proof.
  simpl. unfold bounded, canonical_mantissa, fexp, SpecFloat.emin, prec, emax.
  intros H. apply andb_prop in H as [H1 H2].
  apply Z.eqb_eq in H1. apply Z.leb_le in H2. simpl. lia.
Qed.

Local Open Scope float_scope.

Lemma radians_finite x : is_finite x = true -> is_finite (Math.radians x) = true.
Proof.
  rewrite !is_finite_SF. unfold Math.radians. rewrite mul_spec.
  change (Prim2SF Math.degToRad) with (S754_finite false 5030569068109113 (-58)).
  pose proof (Prim2SF_valid x) as Hv.
  destruct (Prim2SF x) as [s|s| |s m e]; simpl; try discriminate; [reflexivity|].
  intros _. apply valid_finite_digits in Hv as [Hd He].
  assert (H : match SFmul prec emax (S754_finite s m e)
                       (S754_finite false 5030569068109113 (-58)) with
              | S754_zero s' | S754_finite s' _ _ => s' = xorb s false
              | _ => False
              end).
  { apply SFmul_finite.
    - unfold prec, emax in *. lia.
    - change (Zdigits2 (Z.pos 5030569068109113)) with 53%Z.
      unfold prec, emax in *. lia. }
  unfold SF64mul. simpl in H |- *.
  destruct (binary_round_aux _ _ _ _ _ _); try reflexivity; destruct H.
Qed.

Lemma SFleb_exponent m e m1 e1 :
  SFleb (S754_finite false m e) (S754_finite false m1 e1) = true -> (e <= e1)%Z.
Proof.
  unfold SFleb, SFcompare. destruct (Z.compare_spec e e1); [lia|lia|discriminate].
Qed.

(** What [|c| <= 1] says on the specification side. *)
Lemma bounded_SF c :
  (abs c <=? 1) = true ->
  match Prim2SF c with
  | S754_zero _ => True
  | S754_finite _ _ e => (e <= -52)%Z
  | _ => False
  end.
Proof.
  rewrite FloatAxioms.leb_spec, abs_spec.
  change (Prim2SF 1) with (S754_finite false 4503599627370496 (-52)).
  destruct (Prim2SF c) as [s|s| |s m e]; intros H.
  - exact I.
  - discriminate H.
  - discriminate H.
  - apply (SFleb_exponent m e _ _ H).
Qed.

(** [c * c * 0] is [+0] when [|c| <= 1]. *)
Lemma square_times_zero c : (abs c <=? 1) = true -> c * c * 0 = 0.
Proof.
  intros Hle. apply bounded_SF in Hle.
  apply Prim2SF_inj. rewrite !mul_spec.
  change (Prim2SF 0) with (S754_zero false).
  pose proof (Prim2SF_valid c) as Hv.
  destruct (Prim2SF c) as [s|s| |s m e]; [|destruct Hle|destruct Hle|].
  - destruct s; reflexivity.
  - apply valid_finite_digits in Hv as [Hd He].
    assert (H : match SFmul prec emax (S754_finite s m e) (S754_finite s m e) with
                | S754_zero s' | S754_finite s' _ _ => s' = xorb s s
                | _ => False
                end).
    { apply SFmul_finite; unfold prec, emax in *; lia. }
    unfold SF64mul. rewrite xorb_nilpotent in H.
    destruct (SFmul prec emax (S754_finite s m e) (S754_finite s m e)) as [s'|s'| |s' m' e'];
      [subst s'; reflexivity|destruct H|destruct H|subst s'; reflexivity].
Qed.

Lemma bounded_finite c : (abs c <=? 1) = true -> is_finite c = true.
Proof.
  intros Hle. apply bounded_SF in Hle. rewrite is_finite_SF.
  destruct (Prim2SF c); [reflexivity|destruct Hle|destruct Hle|reflexivity].
Qed.

Lemma is_finite_split x :
  is_finite x = true -> is_nan x = false /\ is_infinity x = false.
Proof.
  unfold is_finite. intros H. apply negb_true_iff, orb_false_elim in H. exact H.
Qed.

Lemma nan_opp x : is_nan x = true -> - x = x.
Proof.
  rewrite is_nan_SF. intros H. apply Prim2SF_inj. rewrite opp_spec.
  destruct (Prim2SF x); try discriminate. reflexivity.
Qed.

Lemma eqb_zero_opp x : (- x =? 0) = (x =? 0).
Proof.
  rewrite !FloatAxioms.eqb_spec, opp_spec. change (Prim2SF 0) with (S754_zero false).
  destruct (Prim2SF x) as [[]|[]| |[] m e]; reflexivity.
Qed.

(** The base [float_pow] hands to the C library is the same for [x] and [-x]. *)
Lemma pow_base_opp x :
  is_nan x = false -> (x =? 0) = false ->
  (if - x <? 0 then - - x else - x) = (if x <? 0 then - x else x).
Proof.
  rewrite is_nan_SF, FloatAxioms.eqb_spec, !FloatAxioms.ltb_spec, opp_spec, opp_involutive.
  change (Prim2SF 0) with (S754_zero false).
  destruct (Prim2SF x) as [[]|[]| |[] m e]; simpl; try discriminate; reflexivity.
Qed.
End FloatFacts.

(** * The head of a sorted list *)

Section LeastFirst.
Context {A K : Type}.
Variable lt : K -> K -> bool.
Variable key : A -> K.
Variable ok : K -> Prop.
Hypothesis lt_trans :
  forall a b c, lt a b = true -> lt b c = true -> lt a c = true.
Hypothesis lt_nlt_trans :
  forall a b c, ok c -> lt a b = true -> lt c b = false -> lt a c = true.

Lemma head_insort pivot run :
  head (insort lt key pivot run) = least_step lt key (head run) pivot.
Proof.
  destruct run as [|x rest]; simpl; [reflexivity|].
  destruct (lt _ _); reflexivity.
Qed.

Lemma head_foldl_insort xs run :
  head (foldl (fun run pivot => insort lt key pivot run) run xs)
  = foldl (least_step lt key) (head run) xs.
Proof.
  revert run. induction xs as [|x xs IH]; intros run; simpl; [reflexivity|].
  rewrite IH, head_insort. reflexivity.
Qed.

(** Sorting and taking the head is a scan for the least item. *)
Lemma head_sorted xs :
  head (sorted lt key xs) = foldl (least_step lt key) None xs.
Proof. apply head_foldl_insort. Qed.

Lemma least_scan xs : forall l b,
  Forall (fun y => ok (key y)) l -> Forall (fun y => ok (key y)) xs ->
  least_first lt key l b ->
  exists r, foldl (least_step lt key) (Some b) xs = Some r
            /\ least_first lt key (l ++ xs) r.
Proof.
  induction xs as [|x xs IH]; intros l b Hl Hxs Hb; simpl.
  - exists b. rewrite app_nil_r. auto.
  - apply Forall_cons in Hxs as [Hx Hxs].
    replace (l ++ x :: xs) with ((l ++ [x]) ++ xs)
      by (rewrite <- app_assoc; reflexivity).
    assert (Hl' : Forall (fun y => ok (key y)) (l ++ [x])).
    { apply Forall_app. split; [assumption|]. constructor; [assumption|constructor]. }
    destruct (lt (key x) (key b)) eqn:Hlt; apply IH; try assumption.
    + destruct Hb as [pre b post Hpre Hpost].
      apply (LeastFirst lt key (pre ++ b :: post) x []); [|constructor].
      apply Forall_app in Hl as [Hokpre Hokpost].
      apply Forall_cons in Hokpost as [_ Hokpost].
      apply Forall_app. split; [|constructor].
      * eapply Forall_impl; [exact Hpre|]. intros y Hy. simpl in Hy. eauto.
      * assumption.
      * rewrite Forall_forall in Hpost, Hokpost. apply Forall_forall.
        intros y Hy. eapply lt_nlt_trans; eauto.
    + destruct Hb as [pre b post Hpre Hpost].
      rewrite <- app_assoc. simpl. constructor; [assumption|].
      apply Forall_app. split; [assumption|].
      constructor; [assumption|constructor].
Qed.

Lemma sorted_head_least xs :
  xs <> [] -> Forall (fun y => ok (key y)) xs ->
  exists r, head (sorted lt key xs) = Some r /\ least_first lt key xs r.
Proof.
  intros Hne Hok. rewrite head_sorted.
  destruct xs as [|x xs]; [congruence|]. simpl.
  apply Forall_cons in Hok as [Hx Hok].
  destruct (least_scan xs [x] x) as [r [Hr Hl]]; try assumption.
  - constructor; [assumption|constructor].
  - apply (LeastFirst lt key [] x []); constructor.
  - exists r. split; assumption.
Qed.
End LeastFirst.

(** Whatever the comparison, the head of the sorted list is an item of
    the list, and a list with an item has one. *)
Section SortedHead.
Context {A K : Type}.
Variable lt : K -> K -> bool.
Variable key : A -> K.

Lemma least_step_elem xs : forall b r,
  foldl (least_step lt key) b xs = Some r -> b = Some r \/ r ∈ xs.
Proof.
  induction xs as [|x xs IH]; intros b r; simpl; [auto|].
  intros H. apply IH in H as [H | H].
  - destruct b as [b|]; simpl in H.
    + destruct (lt _ _); injection H as <-; [right; left|left; reflexivity].
    + injection H as <-. right. left.
  - right. right. assumption.
Qed.

Lemma sorted_head_elem xs r : head (sorted lt key xs) = Some r -> r ∈ xs.
Proof.
  rewrite head_sorted. intros H.
  apply least_step_elem in H as [H | H]; [discriminate|assumption].
Qed.

Lemma least_step_some xs : forall b,
  exists r, foldl (least_step lt key) (Some b) xs = Some r.
Proof.
  induction xs as [|x xs IH]; intros b; simpl; [eauto|].
  destruct (lt _ _); apply IH.
Qed.

Lemma sorted_head_some x xs :
  exists r, head (sorted lt key (x :: xs)) = Some r.
Proof. rewrite head_sorted. simpl. apply least_step_some. Qed.
End SortedHead.

Import FloatFacts.

Lemma sorted_by_distance cs :
  cs <> [] -> Forall (fun c => is_nan (distance_km c) = false) cs ->
  exists best, head (sorted PrimFloat.ltb distance_km cs) = Some best
               /\ nearest_first cs best.
Proof.
  intros Hne Hok.
  destruct (sorted_head_least PrimFloat.ltb distance_km (fun k => is_nan k = false)
              ltb_trans (fun a b c H => ltb_nltb_trans a b c H) cs Hne Hok)
    as [best [Hhead Hleast]].
  exists best. split; [assumption|].
  destruct Hleast as [pre best post Hpre Hpost].
  exists pre, post. split; [reflexivity|]. split; [assumption|].
  apply Forall_app in Hok as [_ Hok]. apply Forall_cons in Hok as [Hb Hok].
  rewrite Forall_forall in Hpost, Hok. apply Forall_forall. intros c Hc.
  apply nltb_leb; auto.
Qed.


(** * The selector *)

Lemma bind_Ok {A B : Type} (r : result A) (k : A -> result B) b :
  bind r k = Ok b -> exists a, r = Ok a /\ k a = Ok b.
Proof. destruct r as [a|e]; simpl; [eauto|discriminate]. Qed.

Section Selector.
Variable M : libm.
Variables user_lat user_lon : float.

(** The candidates are the complete stations, in the order of the
    list, each with its measurements. *)
Lemma collect_candidates_spec ref_temp items : forall cs,
  collect_candidates M user_lat user_lon ref_temp items = Ok cs ->
  node <$> cs = List.filter complete items
  /\ Forall (measured M user_lat user_lon ref_temp) cs.
Proof.
  induction items as [|n items IH]; intros cs; simpl.
  - intros [= <-]. split; [reflexivity|constructor].
  - intros H.
    apply bind_Ok in H as (vlat & Hlat & H).
    apply bind_Ok in H as (vlon & Hlon & H).
    apply bind_Ok in H as (vt & Ht & H).
    apply bind_Ok in H as (vh & Hh & H).
    apply bind_Ok in H as (vp & Hp & H).
    unfold complete at 1, present. rewrite Hlat, Hlon, Ht, Hh, Hp.
    destruct (is_None vlat) eqn:E1; simpl; [apply IH, H|].
    destruct (is_None vlon) eqn:E2; simpl; [apply IH, H|].
    destruct (is_None vt) eqn:E3; simpl; [apply IH, H|].
    destruct (is_None vh) eqn:E4; simpl; [apply IH, H|].
    destruct (is_None vp) eqn:E5; simpl in *; [apply IH, H|].
    apply bind_Ok in H as (lat & Hflat & H).
    apply bind_Ok in H as (lon & Hflon & H).
    apply bind_Ok in H as (d & Hd & H).
    apply bind_Ok in H as (diff & Hdiff & H).
    apply bind_Ok in H as (rest & Hrest & H).
    injection H as <-. destruct (IH _ Hrest) as [IH1 IH2].
    split; [simpl; f_equal; exact IH1|].
    constructor; [|exact IH2].
    unfold measured, measure, complete, present; simpl.
    rewrite Hlat, Hlon, Ht, Hh, Hp, E1, E2, E3, E4, E5. simpl.
    rewrite Hflat. simpl. rewrite Hflon. simpl. rewrite Hd. simpl.
    rewrite Hdiff. split; reflexivity.
Qed.

(** The loop ends without an exception when the list holds objects and
    every candidate among them can be measured. *)
Lemma collect_candidates_returns ref_temp items :
  Forall (fun n => is_dict n = true) items ->
  Forall (fun n => complete n = true ->
                   exists c, measure M user_lat user_lon ref_temp n = Ok c) items ->
  exists cs, collect_candidates M user_lat user_lon ref_temp items = Ok cs.
Proof.
  induction items as [|n items IH]; intros Hd Hm; simpl; [eauto|].
  apply Forall_cons in Hd as [Hn Hd]. apply Forall_cons in Hm as [Hmn Hm].
  destruct (IH Hd Hm) as [cs Hcs]. rewrite Hcs.
  destruct n as [| | | | | |m]; try discriminate.
  unfold complete, present, measure in Hmn. simpl in *.
  destruct (is_None (default JNull (m !! "latitude"))); simpl in *; [eauto|].
  destruct (is_None (default JNull (m !! "longitude"))); simpl in *; [eauto|].
  destruct (is_None (default JNull (m !! "temperature"))); simpl in *; [eauto|].
  destruct (is_None (default JNull (m !! "relative_humidity"))); simpl in *; [eauto|].
  destruct (is_None (default JNull (m !! "barometric_pressure"))); simpl in *; [eauto|].
  destruct (Hmn eq_refl) as [c Hc].
  apply bind_Ok in Hc as (lat & -> & Hc). simpl.
  apply bind_Ok in Hc as (lon & -> & Hc). simpl.
  apply bind_Ok in Hc as (d & -> & Hc). simpl.
  apply bind_Ok in Hc as (diff & -> & Hc). simpl. eauto.
Qed.

Lemma find_best_unfold nodes current ref_temp items cs :
  dict_get current "temperature_2m" = Ok ref_temp ->
  py_iter nodes = Ok items ->
  collect_candidates M user_lat user_lon ref_temp items = Ok cs ->
  find_best_matching_node M user_lat user_lon nodes current =
    match cs with
    | [] => Ok None
    | _ =>
        if is_None ref_temp
        then Ok (head (sorted PrimFloat.ltb distance_km cs))
        else
          match List.filter within_tolerance cs with
          | _ :: _ =>
              Ok (head (sorted PrimFloat.ltb distance_km
                          (List.filter within_tolerance cs)))
          | [] => Ok (head (sorted F.pair_ltb
                              (fun c => (temp_diff c, distance_km c)) cs))
          end
    end.
Proof.
  intros H1 H2 H3. unfold find_best_matching_node. rewrite H1. simpl.
  rewrite H2. simpl. rewrite H3. reflexivity.
Qed.

(** A selected station is one of the candidates. *)
Lemma find_best_some nodes current best :
  find_best_matching_node M user_lat user_lon nodes current = Ok (Some best) ->
  exists ref_temp items cs,
    dict_get current "temperature_2m" = Ok ref_temp /\
    py_iter nodes = Ok items /\
    collect_candidates M user_lat user_lon ref_temp items = Ok cs /\
    best ∈ cs.
Proof.
  intros H. unfold find_best_matching_node in H.
  apply bind_Ok in H as (ref_temp & Href & H).
  apply bind_Ok in H as (items & Hitems & H).
  apply bind_Ok in H as (cs & Hcs & H).
  exists ref_temp, items, cs. repeat (split; [assumption|]).
  destruct cs as [|c cs']; [discriminate|].
  destruct (is_None ref_temp).
  - injection H as H. eapply sorted_head_elem, H.
  - destruct (List.filter _ (c :: cs')) as [|m ms] eqn:Hf; injection H as H.
    + eapply sorted_head_elem, H.
    + apply sorted_head_elem in H. rewrite <- Hf in H.
      apply list_elem_of_In, filter_In in H as [H _].
      apply list_elem_of_In, H.
Qed.

(** No selection means no candidate. *)
Lemma find_best_none nodes current :
  find_best_matching_node M user_lat user_lon nodes current = Ok None ->
  exists items,
    py_iter nodes = Ok items /\ Forall (fun n => complete n = false) items.
Proof.
  intros H. unfold find_best_matching_node in H.
  apply bind_Ok in H as (ref_temp & Href & H).
  apply bind_Ok in H as (items & Hitems & H).
  apply bind_Ok in H as (cs & Hcs & H).
  exists items. split; [assumption|].
  apply collect_candidates_spec in Hcs as [Hnodes _].
  destruct cs as [|c cs].
  - simpl in Hnodes. apply Forall_forall. intros n Hn.
    apply not_true_is_false. intros Hc.
    assert (Hin : In n (List.filter complete items))
      by (apply filter_In; split; [apply list_elem_of_In, Hn|exact Hc]).
    rewrite <- Hnodes in Hin. destruct Hin.
  - exfalso. destruct (is_None ref_temp).
    + destruct (sorted_head_some PrimFloat.ltb distance_km c cs) as [r Hr].
      rewrite Hr in H. discriminate.
    + destruct (List.filter _ (c :: cs)) as [|m ms].
      * destruct (sorted_head_some F.pair_ltb
                    (fun c => (temp_diff c, distance_km c)) c cs) as [r Hr].
        rewrite Hr in H. discriminate.
      * destruct (sorted_head_some PrimFloat.ltb distance_km m ms) as [r Hr].
        rewrite Hr in H. discriminate.
Qed.

(** Without a reference temperature the recorded deviation is [0.0]. *)
Lemma temp_diff_without_reference nodes current best :
  find_best_matching_node M user_lat user_lon nodes current = Ok (Some best) ->
  dict_get current "temperature_2m" = Ok JNull ->
  temp_diff best = 0.
Proof.
  intros H Hnull.
  apply find_best_some in H as (ref & items & cs & Href & _ & Hcs & Hin).
  rewrite Hnull in Href. injection Href as <-.
  apply collect_candidates_spec in Hcs as [_ Hm].
  rewrite Forall_forall in Hm. destruct (Hm _ Hin) as (_ & Hmeasure).
  unfold measure in Hmeasure. simpl in Hmeasure.
  repeat (apply bind_Ok in Hmeasure as (? & _ & Hmeasure)).
  rewrite <- (f_equal (fun r => match r with Ok c => temp_diff c | Raise _ => 0 end)
                Hmeasure).
  reflexivity.
Qed.

(** C3: for every station list, user location and reference
    temperature, a station returned by [find_best_matching_node] has
    latitude, longitude, temperature, relative humidity and barometric
    pressure all non-null: it is one of the candidates, and the
    candidates, the only stations whose distance and temperature are
    compared, are exactly the complete stations of the list. *)
Theorem selected_station_is_complete nodes current best :
  find_best_matching_node M user_lat user_lon nodes current = Ok (Some best) ->
  complete (node best) = true /\
  exists ref_temp items cs,
    py_iter nodes = Ok items /\
    collect_candidates M user_lat user_lon ref_temp items = Ok cs /\
    node <$> cs = List.filter complete items /\
    best ∈ cs.
Proof.
  intros H.
  apply find_best_some in H as (ref_temp & items & cs & _ & Hitems & Hcs & Hin).
  destruct (collect_candidates_spec _ _ _ Hcs) as [Hnodes Hmeasured].
  split.
  - rewrite Forall_forall in Hmeasured. apply Hmeasured in Hin as [Hc _]. exact Hc.
  - exists ref_temp, items, cs. auto.
Qed.

(** X20: when the loop over the stations ends without an exception
    and no distance is NaN, then with a null reference temperature and
    at least one candidate [find_best_matching_node] returns the
    candidate at the least distance among the complete stations, each
    measured from the user, and the first of them in the order of the
    list when several are equally near. *)
Theorem nearest_candidate_without_reference nodes current items cs :
  dict_get current "temperature_2m" = Ok JNull ->
  py_iter nodes = Ok items ->
  collect_candidates M user_lat user_lon JNull items = Ok cs ->
  cs <> [] ->
  Forall (fun c => is_nan (distance_km c) = false) cs ->
  node <$> cs = List.filter complete items /\
  Forall (measured M user_lat user_lon JNull) cs /\
  exists best,
    find_best_matching_node M user_lat user_lon nodes current = Ok (Some best)
    /\ nearest_first cs best.
Proof.
  intros Href Hitems Hcs Hne Hok.
  split; [apply (collect_candidates_spec _ _ _ Hcs)|].
  split; [apply (collect_candidates_spec _ _ _ Hcs)|].
  rewrite (find_best_unfold _ _ _ _ _ Href Hitems Hcs).
  destruct (sorted_by_distance cs Hne Hok) as [best [Hhead Hbest]].
  exists best. split; [|assumption].
  destruct cs; [congruence|]. simpl. rewrite Hhead. reflexivity.
Qed.


End Selector.

Import Example.

Lemma selected_station_is_complete_witness :
  complete three = true /\
  exists ref_temp items cs,
    py_iter (JArr [bare; adrift; three]) = Ok items /\
    collect_candidates Reference.C user_lat user_lon ref_temp items = Ok cs /\
    node <$> cs = List.filter complete items /\
    {| node := three; distance_km := 3.0022630194031996; temp_diff := 1 |} ∈ cs.
Proof.
  apply (selected_station_is_complete Reference.C user_lat user_lon
           (JArr [bare; adrift; three]) (reference (JFloat 17))
           {| node := three; distance_km := 3.0022630194031996; temp_diff := 1 |}).
  vm_compute. reflexivity.
Defined.

Lemma nearest_candidate_without_reference_witness :
  node <$> candidates JNull [ten; adrift; three; three_twin]
  = List.filter complete [ten; adrift; three; three_twin] /\
  Forall (measured Reference.C user_lat user_lon JNull)
    (candidates JNull [ten; adrift; three; three_twin]) /\
  exists best,
    find_best_matching_node Reference.C user_lat user_lon
      (JArr [ten; adrift; three; three_twin]) no_reference = Ok (Some best)
    /\ nearest_first (candidates JNull [ten; adrift; three; three_twin]) best.
Proof.
  apply (nearest_candidate_without_reference Reference.C user_lat user_lon
           (JArr [ten; adrift; three; three_twin]) no_reference
           [ten; adrift; three; three_twin]).
  - vm_compute. reflexivity.
  - reflexivity.
  - vm_compute. reflexivity.
  - vm_compute. discriminate.
  - vm_compute. repeat constructor.
Defined.



(** ** A distance the selector cannot take

    For two points that lie opposite each other on the globe the
    rounded sum [a] of [calculate_distance] can come out one unit in
    the last place above [1]; [sqrt(1 - a)] is then outside the domain
    of [math.sqrt] and raises [ValueError].  With the reference library
    this happens for the user at 65.28 S, 88.13 E and the station at
    65.28 N, 91.87 W. *)

Lemma antipode_distance_raises :
  calculate_distance Reference.C south east 65.28 (-91.87) = Raise ValueError.
Proof. vm_compute. reflexivity. Qed.

(** C4: the claim fails on the code at this input.  The only station is
    complete and its temperature, 18, is within two degrees of the
    reference, 17, yet [find_best_matching_node] returns no station: the
    distance to it raises [ValueError], the selector raises with it, and
    [/api] answers 500. *)
Theorem antipode_within_tolerance_is_not_selected :
  complete (antipode (JFloat 18)) = true /\
  (abs (18 - 17) <=? 2) = true /\
  find_best_matching_node Reference.C south east (JArr [antipode (JFloat 18)])
    (reference (JFloat 17)) = Raise ValueError /\
  handle_api Reference.C
    (upstream 1000 [antipode (JFloat 18)] (reference (JFloat 17)))
    (query "-65.28" "88.13") start
  = (Sent (send_json (ErrorBody (ExceptionText ValueError)) 500 None),
     after_south 1000 [antipode (JFloat 18)]).
Proof. repeat split; vm_compute; reflexivity. Qed.

(** C5: the claim fails on the code at this input.  The only station is
    complete and its temperature, 18, is not within two degrees of the
    reference, 30, so that it is the candidate with the least pair of
    deviation and distance; yet [find_best_matching_node] returns no
    station but raises the [ValueError] of the distance, and [/api]
    answers 500. *)
Theorem antipode_outside_tolerance_is_not_selected :
  complete (antipode (JFloat 18)) = true /\
  (abs (18 - 30) <=? 2) = false /\
  find_best_matching_node Reference.C south east (JArr [antipode (JFloat 18)])
    (reference (JFloat 30)) = Raise ValueError /\
  handle_api Reference.C
    (upstream 1000 [antipode (JFloat 18)] (reference (JFloat 30)))
    (query "-65.28" "88.13") start
  = (Sent (send_json (ErrorBody (ExceptionText ValueError)) 500 None),
     after_south 1000 [antipode (JFloat 18)]).
Proof. repeat split; vm_compute; reflexivity. Qed.

(** C6: the claim fails on the code at this input.  There is no
    reference temperature and the only station is complete, so that it
    is the nearest candidate; yet [find_best_matching_node] returns no
    station but raises the [ValueError] of the distance, and [/api]
    answers 500. *)
Theorem antipode_without_reference_is_not_selected :
  complete (antipode (JFloat 18)) = true /\
  dict_get no_reference "temperature_2m" = Ok JNull /\
  find_best_matching_node Reference.C south east (JArr [antipode (JFloat 18)])
    no_reference = Raise ValueError /\
  handle_api Reference.C (upstream 1000 [antipode (JFloat 18)] no_reference)
    (query "-65.28" "88.13") start
  = (Sent (send_json (ErrorBody (ExceptionText ValueError)) 500 None),
     after_south 1000 [antipode (JFloat 18)]).
Proof. repeat split; vm_compute; reflexivity. Qed.

(** * The cache *)

Lemma to_int_finite x : is_finite x = true -> exists n, F.to_int x = Ok n.
Proof.
  rewrite is_finite_SF. unfold F.to_int.
  destruct (Prim2SF x); simpl; try discriminate; eauto.
Qed.

Lemma get_nodes_data_hit E w stored :
  data (cache w) = Some stored ->
  (time E - timestamp (cache w) <? CACHE_DURATION) = true ->
  is_finite (seconds_left E w) = true ->
  get_nodes_data E w = (Ok (stored, HIT), w).
Proof.
  intros Hd Hage Hleft. unfold get_nodes_data, cache_is_valid. rewrite Hd, Hage.
  simpl. destruct (to_int_finite _ Hleft) as [n ->]. reflexivity.
Qed.

Lemma get_nodes_data_miss E w :
  cache_is_valid E w = false ->
  get_nodes_data E w =
    match nodes_api E with
    | Ok fresh =>
        (Ok (fresh, MISS),
         {| cache := {| data := Some fresh; timestamp := time E |};
            calls := UrlopenNodes :: calls w |})
    | Raise e =>
        (Raise e, {| cache := cache w; calls := UrlopenNodes :: calls w |})
    end.
Proof.
  intros Hv. unfold get_nodes_data. rewrite Hv. unfold urlopen.
  destruct (nodes_api E); reflexivity.
Qed.

Lemma cache_invalid_empty E w :
  data (cache w) = None -> cache_is_valid E w = false.
Proof. intros H. unfold cache_is_valid. rewrite H. reflexivity. Qed.

Lemma cache_invalid_expired E w :
  (CACHE_DURATION <=? time E - timestamp (cache w)) = true ->
  cache_is_valid E w = false.
Proof.
  intros H. unfold cache_is_valid. rewrite (leb_nltb _ _ H). apply andb_false_r.
Qed.

(** C7: starting from an empty cache, [get_nodes_data] answers MISS on
    the first call and stores what it fetched with the time of the call;
    a call less than 300 seconds after that time answers HIT with the
    stored data and leaves the world as it is; a call 300 seconds or more
    after it answers MISS and replaces the entry by the fresh data and the
    new time.  The fetches of the two misses are taken to succeed, and the
    validity left at the hit to be a finite number of seconds, as it is
    for the readings of a clock. *)
Theorem cache_miss_hit_miss E0 E1 E2 w0 first second :
  data (cache w0) = None ->
  nodes_api E0 = Ok first ->
  nodes_api E2 = Ok second ->
  let w1 := {| cache := {| data := Some first; timestamp := time E0 |};
               calls := UrlopenNodes :: calls w0 |} in
  get_nodes_data E0 w0 = (Ok (first, MISS), w1) /\
  ((time E1 - time E0 <? 300) = true ->
   is_finite (300 - (time E1 - time E0)) = true ->
   get_nodes_data E1 w1 = (Ok (first, HIT), w1)) /\
  ((300 <=? time E2 - time E0) = true ->
   get_nodes_data E2 w1 =
     (Ok (second, MISS),
      {| cache := {| data := Some second; timestamp := time E2 |};
         calls := UrlopenNodes :: calls w1 |})).
Proof.
  intros Hempty H0 H2 w1. repeat split.
  - rewrite get_nodes_data_miss, H0 by (apply cache_invalid_empty, Hempty).
    reflexivity.
  - intros Hage Hleft.
    apply get_nodes_data_hit; [reflexivity|exact Hage|exact Hleft].
  - intros Hage.
    rewrite get_nodes_data_miss, H2 by (apply cache_invalid_expired, Hage).
    reflexivity.
Qed.

Lemma cache_miss_hit_miss_witness :
  let first := Encoded (JArr [three]) in
  let second := Encoded (JArr [three; ten]) in
  let w1 := {| cache := {| data := Some first; timestamp := 1000 |};
               calls := [UrlopenNodes] |} in
  get_nodes_data (upstream 1000 [three] no_reference) start
  = (Ok (first, MISS), w1) /\
  get_nodes_data (upstream 1299.5 [ten] no_reference) w1
  = (Ok (first, HIT), w1) /\
  get_nodes_data (upstream 1300 [three; ten] no_reference) w1
  = (Ok (second, MISS),
     {| cache := {| data := Some second; timestamp := 1300 |};
        calls := [UrlopenNodes; UrlopenNodes] |}).
Proof.
  destruct (cache_miss_hit_miss (upstream 1000 [three] no_reference)
              (upstream 1299.5 [ten] no_reference)
              (upstream 1300 [three; ten] no_reference) start
              (Encoded (JArr [three])) (Encoded (JArr [three; ten]))
              eq_refl eq_refl eq_refl) as (H0 & H1 & H2).
  split; [exact H0|]. split; [apply H1; reflexivity|apply H2; reflexivity].
Defined.

(** * The [/api] handler *)

Lemma io_bind_Ok {A B : Type} (m : io A) (k : A -> io B) w b w' :
  io_bind m k w = (Ok b, w') ->
  exists a w1, m w = (Ok a, w1) /\ k a w1 = (Ok b, w').
Proof.
  unfold io_bind. destruct (m w) as [[a|e] w1]; [eauto|discriminate].
Qed.

Lemma encode_Ok payload encoded : encode payload = Ok encoded -> encoded = payload.
Proof.
  unfold encode. destruct payload as [m|p|raw]; try congruence.
  destruct (_ && _); congruence.
Qed.

(** A station whose name holds a surrogate is complete and selected,
    but its answer cannot be encoded: [/api] answers 500. *)
Lemma surrogate_name_is_a_500 :
  Text.code_points lone_surrogate = [55296%Z] /\
  complete (station lone_surrogate 52.127 (JFloat 18)) = true /\
  handle_api Reference.C
    (upstream 1000 [station lone_surrogate 52.127 (JFloat 18)]
       (reference (JFloat 17)))
    (query "52.10" "10.10") start
  = (Sent (send_json (ErrorBody (ExceptionText ValueError)) 500 None),
     after 1000 [station lone_surrogate 52.127 (JFloat 18)]).
Proof. repeat split; vm_compute; reflexivity. Qed.

Lemma complete_has_coordinates n : complete n = true -> has_coordinates n = true.
Proof.
  unfold complete, has_coordinates. intros H.
  repeat (apply andb_prop in H as [H ?]). rewrite H. assumption.
Qed.

Lemma present_truthy n k : present n k = true -> truthy n = true.
Proof.
  unfold present. destruct n as [| | | | | |m]; simpl; try discriminate.
  destruct (m !! k) as [v|] eqn:E; simpl; [|discriminate]. intros _.
  apply negb_true_iff, bool_decide_eq_false. intros ->.
  rewrite lookup_empty in E. discriminate.
Qed.

Lemma complete_truthy n : complete n = true -> truthy n = true.
Proof.
  intros H. apply complete_has_coordinates in H. unfold has_coordinates in H.
  apply andb_prop in H as [H _]. eapply present_truthy, H.
Qed.

Lemma dict_get_dict n k : is_dict n = true -> exists v, dict_get n k = Ok v.
Proof. destruct n; simpl; try discriminate. eauto. Qed.

Lemma parse_raises s e : FloatSyntax.parse s = Raise e -> e = ValueError.
Proof.
  assert (Hnum : forall neg l, FloatSyntax.number neg l = Raise e -> e = ValueError).
  { intros neg l. unfold FloatSyntax.number.
    destruct (FloatSyntax.digitpart l 0 0) as [[ip n1] s1].
    destruct (match s1 with [] => _ | _ => _ end) as [[m n2] s2].
    destruct (0 <? n1 + n2)%Z; [|congruence].
    destruct (FloatSyntax.exponent s2); congruence. }
  assert (Huns : forall neg l, FloatSyntax.unsigned neg l = Raise e -> e = ValueError).
  { intros neg l. unfold FloatSyntax.unsigned.
    destruct (_ || _); [discriminate|].
    destruct (FloatSyntax.is_word "nan" l); [discriminate|]. apply Hnum. }
  unfold FloatSyntax.parse. destruct (FloatSyntax.strip _) as [|c t]; [congruence|].
  destruct (_ =? 45)%Z; [apply Huns|]. destruct (_ =? 43)%Z; apply Huns.
Qed.

(** [float] at the edges of its grammar: the whitespace it drops is
    that of [Py_ISSPACE], not the separators [0x1c] to [0x1f]; Unicode
    spaces and decimal digits count in a text that is not ASCII. *)
Lemma float_examples :
  FloatSyntax.parse " 52.10 " = Ok 52.1 /\
  FloatSyntax.parse (String "028" "52.1") = Raise ValueError /\
  FloatSyntax.parse (String "194" (String "160" "52.1")) = Ok 52.1 /\
  FloatSyntax.parse "١٢" = Ok 12 /\
  FloatSyntax.parse "1_000.5e-1" = Ok 100.05 /\
  FloatSyntax.parse "1__0" = Raise ValueError /\
  FloatSyntax.parse "-Infinity" = Ok neg_infinity /\
  FloatSyntax.parse "1e400" = Ok infinity /\
  FloatSyntax.parse "0x10" = Raise ValueError /\
  FloatSyntax.parse "" = Raise ValueError.
Proof. repeat split; vm_compute; reflexivity. Qed.

Lemma parse_coordinate_lat q :
  parse_coordinate q "lat" None =
    match lat_text q with
    | None => Ok None
    | Some text => let* x := FloatSyntax.parse text in Ok (Some x)
    end.
Proof. unfold parse_coordinate, lat_text. destruct (q !! "lat"); reflexivity. Qed.

Lemma parse_coordinate_long q :
  parse_coordinate q "long" (Some "lon") =
    match long_text q with
    | None => Ok None
    | Some text => let* x := FloatSyntax.parse text in Ok (Some x)
    end.
Proof.
  unfold parse_coordinate, long_text. destruct (q !! "long"); [reflexivity|].
  simpl. destruct (q !! "lon"); reflexivity.
Qed.

Lemma unusable_or_parsed (text : option string) :
  unusable text \/
  exists x, (match text with
             | None => Ok None
             | Some t => let* x := FloatSyntax.parse t in Ok (Some x)
             end) = Ok (Some x).
Proof.
  destruct text as [t|]; simpl; [|auto].
  destruct (FloatSyntax.parse t) as [x|e] eqn:E; [eauto|].
  left. rewrite (parse_raises _ _ E). reflexivity.
Qed.

Section Api.
Variable M : libm.

Lemma collect_candidates_none user_lat user_lon ref_temp items :
  Forall (fun n => is_dict n = true) items ->
  Forall (fun n => complete n = false) items ->
  collect_candidates M user_lat user_lon ref_temp items = Ok [].
Proof.
  induction items as [|n items IH]; intros Hd Hc; [reflexivity|].
  apply Forall_cons in Hd as [Hn Hd]. apply Forall_cons in Hc as [Hcn Hc].
  destruct n as [| | | | | |m]; try discriminate.
  unfold complete, present in Hcn. simpl in *.
  destruct (is_None (default JNull (m !! "latitude"))); simpl in *; [auto|].
  destruct (is_None (default JNull (m !! "longitude"))); simpl in *; [auto|].
  destruct (is_None (default JNull (m !! "temperature"))); simpl in *; [auto|].
  destruct (is_None (default JNull (m !! "relative_humidity"))); simpl in *; [auto|].
  destruct (is_None (default JNull (m !! "barometric_pressure"))); simpl in *; [auto|].
  discriminate.
Qed.

Lemma nearest_loop_none user_lat user_lon items : forall nearest d,
  Forall (fun n => is_dict n = true) items ->
  Forall (fun n => has_coordinates n = false) items ->
  nearest_loop M user_lat user_lon items nearest d = Ok (nearest, d).
Proof.
  induction items as [|n items IH]; intros nearest d Hd Hc; [reflexivity|].
  apply Forall_cons in Hd as [Hn Hd]. apply Forall_cons in Hc as [Hcn Hc].
  destruct n as [| | | | | |m]; try discriminate.
  unfold has_coordinates, present in Hcn. simpl in *.
  destruct (is_None (default JNull (m !! "latitude"))); simpl in *; [auto|].
  destruct (is_None (default JNull (m !! "longitude"))); simpl in *; [auto|].
  discriminate.
Qed.

Lemma nearest_loop_some user_lat user_lon items : forall nearest d n d',
  nearest_loop M user_lat user_lon items nearest d = Ok (Some n, d') ->
  nearest = Some n \/ (n ∈ items /\ has_coordinates n = true).
Proof.
  induction items as [|x items IH]; intros nearest d n d' H; simpl in H.
  - injection H as -> _. auto.
  - apply bind_Ok in H as (vlat & Hlat & H).
    apply bind_Ok in H as (vlon & Hlon & H).
    destruct (is_None vlat) eqn:E1; simpl in H.
    { apply IH in H as [H|[H ?]]; [auto|].
      right. split; [right; exact H|assumption]. }
    destruct (is_None vlon) eqn:E2; simpl in H.
    { apply IH in H as [H|[H ?]]; [auto|].
      right. split; [right; exact H|assumption]. }
    apply bind_Ok in H as (lat & _ & H).
    apply bind_Ok in H as (lon & _ & H).
    apply bind_Ok in H as (dist & _ & H).
    destruct (dist <? d); apply IH in H as [H|[H ?]]; auto;
      try (right; split; [right; exact H|assumption]).
    injection H as <-. right. split; [left|].
    unfold has_coordinates, present. rewrite Hlat, Hlon, E1, E2. reflexivity.
Qed.

(** What [select_node] hands back, by the path it took. *)
Lemma select_node_cases user_lat user_lon nodes current n d diff :
  select_node M user_lat user_lon nodes current = Ok (Some (n, d, diff)) ->
  (exists best,
     find_best_matching_node M user_lat user_lon nodes current = Ok (Some best)
     /\ n = node best /\ d = distance_km best /\ diff = Some (temp_diff best)
     /\ complete n = true)
  \/ (find_best_matching_node M user_lat user_lon nodes current = Ok None
      /\ diff = None /\ has_coordinates n = true
      /\ exists items, py_iter nodes = Ok items /\ n ∈ items
                       /\ Forall (fun m => complete m = false) items).
Proof.
  intros H. unfold select_node in H.
  apply bind_Ok in H as (best & Hbest & H).
  destruct best as [best|].
  - assert (Hc : complete (node best) = true).
    { destruct (find_best_some M _ _ _ _ _ Hbest)
        as (ref & items & cs & _ & _ & Hcs & Hin).
      apply collect_candidates_spec in Hcs as [_ Hm].
      rewrite Forall_forall in Hm. apply (Hm _ Hin). }
    rewrite (complete_truthy _ Hc) in H. injection H as <- <- <-.
    left. exists best. auto.
  - right. apply bind_Ok in H as ([nearest dist] & Hnear & H).
    destruct (find_best_none M _ _ _ _ Hbest) as (items & Hitems & Hnone).
    unfold find_nearest_node in Hnear. rewrite Hitems in Hnear. simpl in Hnear.
    destruct nearest as [x|]; [|discriminate].
    destruct (truthy x); [|discriminate]. injection H as -> -> <-.
    apply nearest_loop_some in Hnear as [Hnear|[Hin Hco]]; [discriminate|].
    split; [assumption|]. split; [reflexivity|]. split; [assumption|].
    exists items. auto.
Qed.

Lemma api_answer_inputs E user_lat user_lon w nodes current st w' :
  api_inputs E user_lat user_lon w = (Ok (nodes, current, st), w') ->
  api_answer M E user_lat user_lon w =
    (api_response M user_lat user_lon nodes current st, w').
Proof. intros H. unfold api_answer, io_bind. rewrite H. reflexivity. Qed.

Lemma handle_api_parsed E q w user_lat user_lon :
  parse_coordinate q "lat" None = Ok (Some user_lat) ->
  parse_coordinate q "long" (Some "lon") = Ok (Some user_lon) ->
  handle_api M E q w =
    match api_answer M E user_lat user_lon w with
    | (Ok r, w') => (Sent r, w')
    | (Raise e, w') =>
        (Sent (send_json (ErrorBody (ExceptionText e)) 500 None), w')
    end.
Proof. intros H1 H2. unfold handle_api. rewrite H1, H2. reflexivity. Qed.

Lemma api_response_status user_lat user_lon nodes current st r :
  api_response M user_lat user_lon nodes current st = Ok r ->
  status r = 200%Z \/ status r = 404%Z.
Proof.
  unfold api_response. intros H.
  apply bind_Ok in H as (sel & _ & H).
  destruct sel as [[[n d] diff]|]; [|injection H as <-; auto].
  repeat (apply bind_Ok in H as (? & _ & H)). injection H as <-. auto.
Qed.

Lemma answered_request_is_not_400 E user_lat user_lon w r w' :
  (let (a, w1) := api_answer M E user_lat user_lon w in
   match a with
   | Ok r => (Sent r, w1)
   | Raise e => (Sent (send_json (ErrorBody (ExceptionText e)) 500 None), w1)
   end) = (Sent r, w') ->
  status r <> 400%Z.
Proof.
  destruct (api_answer M E user_lat user_lon w) as [[r0|e] w1] eqn:Ha.
  - intros [= <- <-]. unfold api_answer in Ha.
    apply io_bind_Ok in Ha as ([[nodes current] st] & w2 & _ & Ha).
    unfold lift in Ha. injection Ha as Ha _.
    apply api_response_status in Ha as [-> | ->]; discriminate.
  - intros [= <- <-]. discriminate.
Qed.

(** C2, as the code has it: the deviation [find_best_matching_node]
    records is a number, [0.0] when there is no reference temperature.
    In a 200 answer of [/api], [check_diff.temperature] is null exactly
    when no station was a candidate and the handler fell back to the
    nearest station with coordinates; otherwise it is the rounded
    deviation of the selected candidate, which is [0.0] when the
    reference temperature is null. *)
Theorem check_diff_null_only_by_fallback E q w user_lat user_lon nodes
    current st w' r p :
  parse_coordinate q "lat" None = Ok (Some user_lat) ->
  parse_coordinate q "long" (Some "lon") = Ok (Some user_lon) ->
  api_inputs E user_lat user_lon w = (Ok (nodes, current, st), w') ->
  handle_api M E q w = (Sent r, w') ->
  content r = ApiBody p ->
  (check_diff_temperature p = None <->
   find_best_matching_node M user_lat user_lon nodes current = Ok None)
  /\ (forall best,
        find_best_matching_node M user_lat user_lon nodes current
        = Ok (Some best) ->
        check_diff_temperature p = Some (F.round2 (temp_diff best))
        /\ (dict_get current "temperature_2m" = Ok JNull ->
            temp_diff best = 0 /\ check_diff_temperature p = Some 0)).
Proof.
  intros Hlat Hlon Hin Hrun Hbody.
  rewrite (handle_api_parsed _ _ _ _ _ Hlat Hlon),
    (api_answer_inputs _ _ _ _ _ _ _ _ Hin) in Hrun.
  destruct (api_response M user_lat user_lon nodes current st) as [r0|e] eqn:Hresp;
    [|injection Hrun as <-; discriminate].
  injection Hrun as ->. unfold api_response in Hresp.
  apply bind_Ok in Hresp as (sel & Hsel & Hresp).
  destruct sel as [[[n d] diff]|]; [|injection Hresp as <-; discriminate].
  do 6 (apply bind_Ok in Hresp as (? & _ & Hresp)).
  apply bind_Ok in Hresp as (encoded & Henc & Hresp). injection Hresp as <-.
  apply encode_Ok in Henc as ->.
  simpl in Hbody. injection Hbody as <-. simpl.
  apply select_node_cases in Hsel
    as [(best & Hbest & _ & _ & -> & _)|(Hnone & -> & _)].
  - split.
    + split; [discriminate|]. rewrite Hbest. discriminate.
    + intros best' Hbest'. rewrite Hbest in Hbest'. injection Hbest' as <-.
      split; [reflexivity|]. intros Hnull.
      rewrite (temp_diff_without_reference M _ _ _ _ _ Hbest Hnull).
      split; reflexivity.
  - split.
    + split; [intros _; exact Hnone|reflexivity].
    + intros best Hbest. rewrite Hnone in Hbest. discriminate.
Qed.

(** C8: when the cache is empty or expired and the fetch of the station
    list fails, [get_nodes_data] raises the error of the fetch and
    leaves the cache entry, data and timestamp, as it was; [/api]
    answers 500 with that error and [/nodes] answers 500, whatever
    stale data the cache holds. *)
Theorem failed_fetch_leaves_cache E w e :
  cache_is_valid E w = false ->
  nodes_api E = Raise e ->
  let w' := {| cache := cache w; calls := UrlopenNodes :: calls w |} in
  get_nodes_data E w = (Raise e, w')
  /\ (forall q user_lat user_lon,
        parse_coordinate q "lat" None = Ok (Some user_lat) ->
        parse_coordinate q "long" (Some "lon") = Ok (Some user_lon) ->
        handle_api M E q w =
          (Sent (send_json (ErrorBody (ExceptionText e)) 500 None), w'))
  /\ proxy_nodes E w =
       (Sent {| status := 500; content := ErrorBody (ExceptionText e);
                x_cache_status := None |}, w').
Proof.
  intros Hmiss Hfail w'.
  assert (Hget : get_nodes_data E w = (Raise e, w')).
  { rewrite get_nodes_data_miss, Hfail by assumption. reflexivity. }
  split; [exact Hget|]. split.
  - intros q user_lat user_lon Hlat Hlon.
    rewrite (handle_api_parsed _ _ _ _ _ Hlat Hlon).
    unfold api_answer, api_inputs, io_bind. rewrite Hget. reflexivity.
  - unfold proxy_nodes. rewrite Hget. reflexivity.
Qed.

(** C10, as the code has it: [/api] answers 400, and leaves the world
    as it is (no upstream call, no change of the cache), exactly when a
    coordinate is unusable: [lat] is missing, [long] and its fallback
    [lon] are both missing, or [float] raises [ValueError] on the text
    of one of them.  Texts that [float] accepts, [nan] and [inf]
    included, are not rejected. *)
Theorem unusable_coordinates_400 E q w :
  (unusable (lat_text q) \/ unusable (long_text q) ->
   exists m, handle_api M E q w = (Sent (send_json (ErrorBody m) 400 None), w))
  /\ (forall r w', handle_api M E q w = (Sent r, w') -> status r = 400%Z ->
      unusable (lat_text q) \/ unusable (long_text q)).
Proof.
  unfold handle_api. rewrite parse_coordinate_lat, parse_coordinate_long.
  split.
  - intros Hbad.
    destruct (lat_text q) as [t1|], (long_text q) as [t2|]; simpl in *.
    + destruct Hbad as [-> | Hbad]; simpl; [eauto|].
      rewrite Hbad. destruct (FloatSyntax.parse t1) as [x|e] eqn:Hp; simpl; [eauto|].
      rewrite (parse_raises _ _ Hp). eauto.
    + destruct (FloatSyntax.parse t1) as [x|e] eqn:Hp; simpl; [eauto|].
      rewrite (parse_raises _ _ Hp). eauto.
    + destruct (FloatSyntax.parse t2) as [x|e] eqn:Hp; simpl; [eauto|].
      rewrite (parse_raises _ _ Hp). eauto.
    + eauto.
  - intros r w' H Hst.
    destruct (unusable_or_parsed (lat_text q)) as [?|[x Hx]]; [auto|].
    destruct (unusable_or_parsed (long_text q)) as [?|[y Hy]]; [auto|].
    exfalso. rewrite Hx in H. simpl in H. rewrite Hy in H. simpl in H.
    eapply answered_request_is_not_400; eassumption.
Qed.
End Api.


Lemma check_diff_null_only_by_fallback_witness :
  let p := answer "three" (JFloat 18) (Some 0) in
  (check_diff_temperature p = None <->
   find_best_matching_node Reference.C user_lat user_lon (JArr [three])
     no_reference = Ok None)
  /\ (forall best,
        find_best_matching_node Reference.C user_lat user_lon (JArr [three])
          no_reference = Ok (Some best) ->
        check_diff_temperature p = Some (F.round2 (temp_diff best))
        /\ (dict_get no_reference "temperature_2m" = Ok JNull ->
            temp_diff best = 0 /\ check_diff_temperature p = Some 0)).
Proof.
  apply (check_diff_null_only_by_fallback Reference.C
           (upstream 1000 [three] no_reference) (query "52.10" "10.10") start
           user_lat user_lon (JArr [three]) no_reference MISS (after 1000 [three])
           {| status := 200;
              content := ApiBody (answer "three" (JFloat 18) (Some 0));
              x_cache_status := Some MISS |}).
  - vm_compute. reflexivity.
  - vm_compute. reflexivity.
  - vm_compute. reflexivity.
  - vm_compute. reflexivity.
  - reflexivity.
Defined.

(** C2 fails as stated: the reference document holds no temperature, the
    selector hands back a deviation of [0.0], and the payload reports
    [check_diff.temperature] as [0.0], not as null. *)
Lemma api_reports_zero_without_reference :
  dict_get no_reference "temperature_2m" = Ok JNull /\
  find_best_matching_node Reference.C user_lat user_lon (JArr [three]) no_reference
  = Ok (Some {| node := three; distance_km := 3.0022630194031996; temp_diff := 0 |})
  /\ handle_api Reference.C (upstream 1000 [three] no_reference)
       (query "52.10" "10.10") start
     = (Sent {| status := 200;
                content := ApiBody (answer "three" (JFloat 18) (Some 0));
                x_cache_status := Some MISS |},
        after 1000 [three]).
Proof. repeat split; vm_compute; reflexivity. Qed.

Lemma failed_fetch_leaves_cache_witness :
  let w := after 1000 [three] in
  let w' := {| cache := cache w; calls := UrlopenNodes :: calls w |} in
  get_nodes_data (down 1400) w = (Raise URLError, w')
  /\ (forall q user_lat user_lon,
        parse_coordinate q "lat" None = Ok (Some user_lat) ->
        parse_coordinate q "long" (Some "lon") = Ok (Some user_lon) ->
        handle_api Reference.C (down 1400) q w =
          (Sent (send_json (ErrorBody (ExceptionText URLError)) 500 None), w'))
  /\ proxy_nodes (down 1400) w =
       (Sent {| status := 500; content := ErrorBody (ExceptionText URLError);
                x_cache_status := None |}, w').
Proof.
  apply (failed_fetch_leaves_cache Reference.C (down 1400) (after 1000 [three])
           URLError); reflexivity.
Defined.

(** C10 fails as stated: [float] accepts the text [nan], which is no
    finite number, and the request goes on to both upstream services and
    is answered 200; and a request without [long] is served when it
    carries [lon]. *)
Lemma nan_coordinate_is_accepted :
  (FloatSyntax.parse "nan" = Ok nan /\ is_finite nan = false /\
   exists p,
     handle_api Reference.C (upstream 1000 [three] (reference (JFloat 17)))
       (query "nan" "10.10") start
     = (Sent {| status := 200; content := ApiBody p;
                x_cache_status := Some MISS |},
        {| cache := {| data := Some (Encoded (JArr [three])); timestamp := 1000 |};
           calls := [UrlopenOpenMeteo nan 10.1; UrlopenNodes] |}))
  /\ (let q := list_to_map [("lat"%string, one "52.10"); ("lon"%string, one "10.10")] in
      q !! "long" = None /\
      handle_api Reference.C (upstream 1000 [three] (reference (JFloat 17))) q start
      = (Sent {| status := 200;
                 content := ApiBody (answer "three" (JFloat 18) (Some 1));
                 x_cache_status := Some MISS |},
         after 1000 [three])).
Proof.
  split.
  - split; [reflexivity|]. split; [reflexivity|]. eexists. vm_compute. reflexivity.
  - split; vm_compute; reflexivity.
Qed.

(** * The distance *)

Lemma math_1_raises f x e : Math.math_1 f x = Raise e -> e = ValueError.
Proof.
  unfold Math.math_1. destruct (_ && _); [congruence|].
  destruct (_ && _); congruence.
Qed.

Section Distance.
Variable M : libm.
Hypothesis laws : libm_laws M.

Lemma sin_opp x :
  Math.sin M (- x) = (let* r := Math.sin M x in Ok (- r)).
Proof.
  unfold Math.sin, Math.math_1. rewrite (sin_odd M laws).
  rewrite !is_nan_opp, is_infinity_opp, is_finite_opp.
  destruct (_ && _); [reflexivity|]. destruct (_ && _); reflexivity.
Qed.

Lemma square_opp x : Math.square M (- x) = Math.square M x.
Proof.
  unfold Math.square. rewrite is_nan_opp, is_infinity_opp, abs_opp, eqb_zero_opp.
  destruct (is_nan x) eqn:Hnan; [rewrite (nan_opp _ Hnan); reflexivity|].
  destruct (is_infinity x); [reflexivity|].
  destruct (x =? 0) eqn:Hz; [reflexivity|].
  rewrite (pow_base_opp _ Hnan Hz). reflexivity.
Qed.

Lemma half_chord_opp d : half_chord M (- d) = half_chord M d.
Proof.
  unfold half_chord, Math.radians. rewrite mul_opp_l, div_opp_l, sin_opp.
  destruct (Math.sin M _) as [s|e]; simpl; [apply square_opp|reflexivity].
Qed.

Lemma half_chord_swap x y : half_chord M (y - x) = half_chord M (x - y).
Proof.
  destruct (sub_swap x y) as [H|[H1 H2]].
  - rewrite H. apply half_chord_opp.
  - rewrite H1, H2. reflexivity.
Qed.

Lemma half_chord_zero : half_chord M 0 = Ok 0.
Proof.
  unfold half_chord, Math.sin, Math.math_1.
  change (Math.radians 0 / 2) with 0. rewrite (sin_zero M laws). reflexivity.
Qed.

Lemma calculate_distance_unfold lat1 lon1 lat2 lon2 :
  calculate_distance M lat1 lon1 lat2 lon2 =
    (let* s_lat2 := half_chord M (lat2 - lat1) in
     let* c1 := Math.cos M (Math.radians lat1) in
     let* c2 := Math.cos M (Math.radians lat2) in
     let* s_lon2 := half_chord M (lon2 - lon1) in
     let a := s_lat2 + c1 * c2 * s_lon2 in
     let* sqrt_a := Math.sqrt a in
     let* sqrt_1a := Math.sqrt (1 - a) in
     let* t := Math.atan2 M sqrt_a sqrt_1a in
     Ok (6371 * (2 * t))).
Proof.
  unfold calculate_distance, half_chord.
  destruct (Math.sin M (Math.radians (lat2 - lat1) / 2)) as [s1|e1]; simpl;
    [|reflexivity].
  destruct (Math.square M s1) as [q1|e1]; simpl; [|reflexivity].
  destruct (Math.cos M (Math.radians lat1)) as [c1|e1]; simpl; [|reflexivity].
  destruct (Math.cos M (Math.radians lat2)) as [c2|e2]; simpl; [|reflexivity].
  destruct (Math.sin M (Math.radians (lon2 - lon1) / 2)) as [s2|e2]; simpl;
    reflexivity.
Qed.

(** C9: [calculate_distance] is symmetric, for all inputs: swapping
    the two points gives the same result, or the same exception; and
    for a finite latitude and longitude the distance of a point to
    itself is [0.0].  The C library is asked to satisfy [libm_laws]. *)
Theorem calculate_distance_symmetric_and_zero :
  (forall lat1 lon1 lat2 lon2,
     calculate_distance M lat1 lon1 lat2 lon2
     = calculate_distance M lat2 lon2 lat1 lon1)
  /\ (forall lat lon,
        is_finite lat = true -> is_finite lon = true ->
        calculate_distance M lat lon lat lon = Ok 0).
Proof.
  split.
  - intros lat1 lon1 lat2 lon2. rewrite !calculate_distance_unfold.
    rewrite (half_chord_swap lat1 lat2), (half_chord_swap lon1 lon2).
    destruct (half_chord M (lat1 - lat2)) as [p|e]; simpl; [|reflexivity].
    destruct (Math.cos M (Math.radians lat1)) as [c1|e1] eqn:H1,
             (Math.cos M (Math.radians lat2)) as [c2|e2] eqn:H2; simpl;
      try reflexivity.
    + rewrite (mul_comm c1 c2). reflexivity.
    + apply math_1_raises in H1, H2. congruence.
  - intros lat lon Hlat Hlon. rewrite calculate_distance_unfold.
    rewrite (sub_diag lat Hlat), (sub_diag lon Hlon), half_chord_zero. simpl.
    pose proof (cos_bounded M laws _ (radians_finite lat Hlat)) as Hc.
    assert (Hcos : Math.cos M (Math.radians lat) = Ok (c_cos M (Math.radians lat))).
    { unfold Math.cos, Math.math_1.
      destruct (is_finite_split _ (bounded_finite _ Hc)) as [-> ->]. reflexivity. }
    rewrite Hcos. simpl. rewrite (square_times_zero _ Hc).
    change (0 + 0) with 0. change (Math.sqrt 0) with (Ok 0). simpl.
    change (Math.sqrt (1 - 0)) with (Ok 1). simpl.
    unfold Math.atan2, Math.math_2. rewrite (atan2_zero M laws). reflexivity.
Qed.
End Distance.

(** The reference library satisfies the laws. *)
Lemma reference_laws : libm_laws Reference.C.
Proof.
  split; simpl.
  - intros x. unfold Reference.sin.
    assert (Hsq : (- x) * (- x) = x * x).
    { rewrite (mul_opp_l x (- x)), (mul_comm x (- x)), (mul_opp_l x x).
      apply opp_involutive. }
    rewrite Hsq. apply mul_opp_l.
  - reflexivity.
  - intros x _. unfold Reference.cos.
    destruct (abs (Reference.cos_poly (x * x)) <=? 1) eqn:E; [exact E|reflexivity].
  - reflexivity.
Qed.

Lemma calculate_distance_symmetric_and_zero_witness :
  calculate_distance Reference.C 52.1 10.1 48.137 11.575
  = calculate_distance Reference.C 48.137 11.575 52.1 10.1
  /\ calculate_distance Reference.C 52.1 10.1 52.1 10.1 = Ok 0.
Proof.
  destruct (calculate_distance_symmetric_and_zero Reference.C reference_laws)
    as [Hs Hz].
  split; [apply Hs|apply Hz; reflexivity].
Defined.

(** * Further properties of the selection *)

Lemma leb_ltb_trans x y z :
  (x <=? y) = true -> (y <? z) = true -> (x <? z) = true.
Proof.
  rewrite leb_cmp, !ltb_cmp. intros [H1|H1] H2;
    apply (cmp_trans _ _ _ _ _ H1 H2); reflexivity.
Qed.

Lemma ltb_nleb x y : (x <? y) = true -> (y <=? x) = false.
Proof.
  intros H. apply not_true_is_false. intros H'.
  apply leb_nltb in H'. congruence.
Qed.

Section Nearest.
Variable M : libm.
Variables user_lat user_lon : float.

(** The state [find_nearest_node] ends in, from the state it starts in. *)
Lemma nearest_loop_spec items : forall nearest d0 res d,
  nearest_loop M user_lat user_lon items nearest d0 = Ok (res, d) ->
  (res = nearest /\ d = d0 /\
   Forall (not_nearer M user_lat user_lon d0 false) items)
  \/ (exists pre n post,
        items = pre ++ n :: post /\ res = Some n /\
        has_coordinates n = true /\
        distance_to M user_lat user_lon n = Ok d /\ (d <? d0) = true /\
        Forall (not_nearer M user_lat user_lon d true) pre /\
        Forall (not_nearer M user_lat user_lon d false) post).
Proof.
  induction items as [|x items IH]; intros nearest d0 res d H; simpl in H.
  - injection H as <- <-. left. auto.
  - apply bind_Ok in H as (vlat & Hlat & H).
    apply bind_Ok in H as (vlon & Hlon & H).
    assert (Hskip : is_None vlat || is_None vlon = true ->
                    forall d1 s, not_nearer M user_lat user_lon d1 s x).
    { intros Hn d1 s Hco. exfalso. unfold has_coordinates, present in Hco.
      rewrite Hlat, Hlon in Hco. apply andb_prop in Hco as [H1 H2].
      apply negb_true_iff in H1, H2. rewrite H1, H2 in Hn. discriminate. }
    destruct (is_None vlat || is_None vlon) eqn:Hnone.
    { apply IH in H as [(-> & -> & Hall)|(pre & n & post & -> & -> & Hn & Hd & Hlt & Hpre & Hpost)].
      - left. repeat split; auto.
      - right. exists (x :: pre), n, post. repeat split; auto. }
    apply bind_Ok in H as (lat & Hflat & H).
    apply bind_Ok in H as (lon & Hflon & H).
    apply bind_Ok in H as (dist & Hdist & H).
    assert (Hco : has_coordinates x = true).
    { unfold has_coordinates, present. rewrite Hlat, Hlon.
      apply orb_false_elim in Hnone as [-> ->]. reflexivity. }
    assert (Hdx : distance_to M user_lat user_lon x = Ok dist).
    { unfold distance_to. rewrite Hlat, Hlon. simpl. rewrite Hflat, Hflon. exact Hdist. }
    destruct (dist <? d0) eqn:Hlt0.
    + apply IH in H as [(-> & -> & Hall)|(pre & n & post & -> & -> & Hn & Hd & Hlt & Hpre & Hpost)].
      * right. exists [], x, items. repeat split; auto.
      * right. exists (x :: pre), n, post. repeat split; auto.
        -- eapply ltb_trans; eassumption.
        -- constructor; [|assumption]. intros _. exists dist. split; [assumption|].
           apply ltb_nleb, Hlt.
    + apply IH in H as [(-> & -> & Hall)|(pre & n & post & -> & -> & Hn & Hd & Hlt & Hpre & Hpost)].
      * left. repeat split; auto. constructor; [|assumption].
        intros _. exists dist. auto.
      * right. exists (x :: pre), n, post. repeat split; auto.
        constructor; [|assumption]. intros _. exists dist. split; [assumption|].
        apply not_true_is_false. intros Hle.
        rewrite (leb_ltb_trans _ _ _ Hle Hlt) in Hlt0. discriminate.
Qed.

(** X1: whenever [find_nearest_node] returns, a station it returns is
    the first station of the list at the least distance among those
    with both coordinates: the distance returned is its own and is
    below infinity, every station with coordinates before it is
    strictly farther and none behind it is nearer, where a distance
    that is NaN never counts as nearer.  It returns no station, with
    the distance infinity, only when no station with coordinates lies
    at a distance below infinity. *)
Theorem find_nearest_node_first_nearest nodes res d :
  find_nearest_node M user_lat user_lon nodes = Ok (res, d) ->
  exists items, py_iter nodes = Ok items /\
    match res with
    | Some n =>
        exists pre post, items = pre ++ n :: post /\
          has_coordinates n = true /\
          distance_to M user_lat user_lon n = Ok d /\
          (d <? infinity) = true /\
          Forall (not_nearer M user_lat user_lon d true) pre /\
          Forall (not_nearer M user_lat user_lon d false) post
    | None =>
        d = infinity /\
        Forall (not_nearer M user_lat user_lon infinity false) items
    end.
Proof.
  unfold find_nearest_node. intros H.
  apply bind_Ok in H as (items & Hitems & H). exists items. split; [assumption|].
  apply nearest_loop_spec in H
    as [(-> & -> & Hall)|(pre & n & post & -> & -> & Hn & Hd & Hlt & Hpre & Hpost)].
  - split; [reflexivity|assumption].
  - exists pre, post. repeat split; assumption.
Qed.

Lemma collect_candidates_dicts ref_temp items : forall cs,
  collect_candidates M user_lat user_lon ref_temp items = Ok cs ->
  Forall (fun n => is_dict n = true) items.
Proof.
  induction items as [|n items IH]; intros cs H; [constructor|].
  simpl in H. apply bind_Ok in H as (vlat & Hlat & H).
  assert (Hn : is_dict n = true) by (destruct n; try discriminate; reflexivity).
  repeat (apply bind_Ok in H as (? & _ & H)).
  constructor; [assumption|].
  destruct (_ || _); [eapply IH, H|].
  repeat (apply bind_Ok in H as (? & ? & H)). eapply IH. eassumption.
Qed.

(** On such a list the loop of [find_nearest_node] follows the scan
    for the least distance among the candidates. *)
Lemma nearest_loop_follows_scan items : forall cs acc,
  collect_candidates M user_lat user_lon JNull items = Ok cs ->
  Forall (fun n => has_coordinates n = true -> complete n = true) items ->
  Forall (fun c => (distance_km c <? infinity) = true) cs ->
  nearest_loop M user_lat user_lon items (as_nearest acc).1 (as_nearest acc).2
  = Ok (as_nearest (foldl (least_step PrimFloat.ltb distance_km) acc cs)).
Proof.
  induction items as [|x items IH]; intros cs acc Hcs Hall Hfin; simpl in Hcs.
  - injection Hcs as <-. simpl. destruct (as_nearest acc). reflexivity.
  - apply Forall_cons in Hall as [Hx Hall].
    apply bind_Ok in Hcs as (vlat & Hlat & Hcs).
    apply bind_Ok in Hcs as (vlon & Hlon & Hcs).
    apply bind_Ok in Hcs as (vt & Ht & Hcs).
    apply bind_Ok in Hcs as (vh & Hh & Hcs).
    apply bind_Ok in Hcs as (vp & Hp & Hcs).
    simpl. rewrite Hlat. simpl. rewrite Hlon. simpl.
    unfold has_coordinates, complete, present in Hx.
    rewrite Hlat, Hlon, Ht, Hh, Hp in Hx.
    destruct (is_None vlat) eqn:E1; simpl in *; [apply IH; assumption|].
    destruct (is_None vlon) eqn:E2; simpl in *; [apply IH; assumption|].
    specialize (Hx eq_refl).
    apply andb_prop in Hx as [Hx E5]. apply andb_prop in Hx as [E3 E4].
    apply negb_true_iff in E3, E4, E5. rewrite E3, E4, E5 in Hcs. simpl in Hcs.
    apply bind_Ok in Hcs as (lat & Hflat & Hcs).
    apply bind_Ok in Hcs as (lon & Hflon & Hcs).
    apply bind_Ok in Hcs as (dist & Hdist & Hcs).
    apply bind_Ok in Hcs as (rest & Hrest & Hcs). injection Hcs as <-.
    apply Forall_cons in Hfin as [Hc Hfin]. simpl in Hc.
    rewrite Hflat. simpl. rewrite Hflon. simpl. rewrite Hdist. simpl.
    destruct acc as [b|]; simpl.
    + destruct (dist <? distance_km b).
      * apply (IH rest (Some {| node := x; distance_km := dist; temp_diff := 0 |}));
          assumption.
      * apply (IH rest (Some b)); assumption.
    + rewrite Hc.
      apply (IH rest (Some {| node := x; distance_km := dist; temp_diff := 0 |}));
        assumption.
Qed.

(** X2: without a reference temperature [find_best_matching_node] and
    the fallback [find_nearest_node] choose the same station with the
    same distance, and both choose none on the same lists, whenever
    every station that has coordinates is complete and every distance
    is below infinity. *)
Theorem fallback_agrees_with_selector nodes current items cs :
  dict_get current "temperature_2m" = Ok JNull ->
  py_iter nodes = Ok items ->
  collect_candidates M user_lat user_lon JNull items = Ok cs ->
  Forall (fun n => has_coordinates n = true -> complete n = true) items ->
  Forall (fun c => (distance_km c <? infinity) = true) cs ->
  exists sel,
    find_best_matching_node M user_lat user_lon nodes current = Ok sel /\
    find_nearest_node M user_lat user_lon nodes = Ok (as_nearest sel).
Proof.
  intros Href Hitems Hcs Hall Hfin.
  exists (head (sorted PrimFloat.ltb distance_km cs)). split.
  - rewrite (find_best_unfold M _ _ _ _ _ _ _ Href Hitems Hcs).
    destruct cs; reflexivity.
  - unfold find_nearest_node. rewrite Hitems. simpl.
    rewrite head_sorted.
    apply (nearest_loop_follows_scan items cs None); assumption.
Qed.

Lemma no_selection_None nodes current :
  find_best_matching_node M user_lat user_lon nodes current = Ok None ->
  is_dict current = true /\
  exists items, py_iter nodes = Ok items /\
    Forall (fun n => is_dict n = true) items /\
    Forall (fun n => complete n = false) items.
Proof.
  intros H. pose proof (find_best_none M _ _ _ _ H) as (items & Hitems & Hnone).
  unfold find_best_matching_node in H.
  apply bind_Ok in H as (ref_temp & Href & H).
  apply bind_Ok in H as (items' & Hitems' & H).
  apply bind_Ok in H as (cs & Hcs & H).
  rewrite Hitems in Hitems'. injection Hitems' as <-.
  split; [destruct current; try discriminate; reflexivity|].
  exists items. split; [assumption|]. split; [|assumption].
  eapply collect_candidates_dicts, Hcs.
Qed.

(** X3: [find_best_matching_node] returns [(None, None)] exactly when
    the weather document is an object, the station list can be
    iterated, every item of it is an object and none is complete. *)
Theorem no_selection_iff_no_candidate nodes current :
  find_best_matching_node M user_lat user_lon nodes current = Ok None <->
  is_dict current = true /\
  exists items, py_iter nodes = Ok items /\
    Forall (fun n => is_dict n = true) items /\
    Forall (fun n => complete n = false) items.
Proof.
  split; [apply no_selection_None|].
  intros (Hcur & items & Hitems & Hdicts & Hnone).
  destruct (dict_get_dict current "temperature_2m" Hcur) as [ref Href].
  rewrite (find_best_unfold M _ _ _ _ _ _ [] Href Hitems); [reflexivity|].
  apply collect_candidates_none; assumption.
Qed.

(** X4: with a reference temperature, the station selected by
    [find_best_matching_node] is one of the candidates, and it is within
    the tolerance of two degrees exactly when some candidate is.  No
    assumption is made on the distances: this holds with NaN as well. *)
Theorem selection_within_tolerance_when_possible nodes current ref_temp items cs best :
  dict_get current "temperature_2m" = Ok ref_temp ->
  is_None ref_temp = false ->
  py_iter nodes = Ok items ->
  collect_candidates M user_lat user_lon ref_temp items = Ok cs ->
  find_best_matching_node M user_lat user_lon nodes current = Ok (Some best) ->
  best ∈ cs /\
  (within_tolerance best = true <-> Exists (fun c => within_tolerance c = true) cs).
Proof.
  intros Href Hsome Hitems Hcs H.
  rewrite (find_best_unfold M _ _ _ _ _ _ _ Href Hitems Hcs), Hsome in H.
  destruct cs as [|c cs']; [discriminate|].
  destruct (List.filter within_tolerance (c :: cs')) as [|m ms] eqn:Hf;
    injection H as H; apply sorted_head_elem in H.
  - split; [assumption|]. split.
    + intros Hw. apply Exists_exists. eauto.
    + intros Hex. exfalso. apply Exists_exists in Hex as (x & Hx & Hw).
      assert (Hin : In x (List.filter within_tolerance (c :: cs')))
        by (apply filter_In; split; [apply list_elem_of_In, Hx|exact Hw]).
      rewrite Hf in Hin. destruct Hin.
  - rewrite <- Hf in H. apply list_elem_of_In, filter_In in H as [Hin Hw].
    apply list_elem_of_In in Hin. split; [assumption|]. split; [|auto].
    intros _. apply Exists_exists. eauto.
Qed.

Lemma measure_distance_to ref_temp n c :
  measure M user_lat user_lon ref_temp n = Ok c ->
  distance_to M user_lat user_lon n = Ok (distance_km c).
Proof.
  unfold measure, distance_to. intros H.
  apply bind_Ok in H as (vlat & Hlat & H).
  apply bind_Ok in H as (vlon & Hlon & H).
  apply bind_Ok in H as (vt & _ & H).
  apply bind_Ok in H as (lat & Hflat & H).
  apply bind_Ok in H as (lon & Hflon & H).
  apply bind_Ok in H as (d & Hd & H).
  apply bind_Ok in H as (diff & _ & H).
  injection H as <-. rewrite Hlat, Hlon. simpl. rewrite Hflat, Hflon. exact Hd.
Qed.

(** X5: the record [find_best_matching_node] returns belongs to the
    station it returns: [distance_km] is the distance from the user to
    that station's coordinates, and [temp_diff] is [0.0] when the
    reference temperature is null and the absolute difference of that
    station's temperature and the reference otherwise. *)
Theorem selection_holds_its_own_numbers nodes current best :
  find_best_matching_node M user_lat user_lon nodes current = Ok (Some best) ->
  distance_to M user_lat user_lon (node best) = Ok (distance_km best) /\
  exists ref_temp, dict_get current "temperature_2m" = Ok ref_temp /\
    if is_None ref_temp then temp_diff best = 0
    else exists temp t r,
      dict_get (node best) "temperature" = Ok temp /\
      py_float temp = Ok t /\ py_float ref_temp = Ok r /\
      temp_diff best = abs (t - r).
Proof.
  intros H.
  apply find_best_some in H as (ref_temp & items & cs & Href & _ & Hcs & Hin).
  apply collect_candidates_spec in Hcs as [_ Hm].
  rewrite Forall_forall in Hm. destruct (Hm _ Hin) as [_ Hmeasure].
  unfold measure in Hmeasure.
  apply bind_Ok in Hmeasure as (vlat & Hlat & Hmeasure).
  apply bind_Ok in Hmeasure as (vlon & Hlon & Hmeasure).
  apply bind_Ok in Hmeasure as (vt & Ht & Hmeasure).
  apply bind_Ok in Hmeasure as (lat & Hflat & Hmeasure).
  apply bind_Ok in Hmeasure as (lon & Hflon & Hmeasure).
  apply bind_Ok in Hmeasure as (d & Hd & Hmeasure).
  apply bind_Ok in Hmeasure as (diff & Hdiff & Hmeasure).
  injection Hmeasure as Hbest.
  assert (Hdk : distance_km best = d) by (rewrite <- Hbest; reflexivity).
  assert (Htd : temp_diff best = diff) by (rewrite <- Hbest; reflexivity).
  split.
  - unfold distance_to. rewrite Hlat, Hlon. simpl. rewrite Hflat, Hflon, Hdk. exact Hd.
  - exists ref_temp. split; [assumption|].
    destruct (is_None ref_temp).
    + injection Hdiff as <-. exact Htd.
    + apply bind_Ok in Hdiff as (t & Hft & Hdiff).
      apply bind_Ok in Hdiff as (r & Hfr & Hdiff). injection Hdiff as <-.
      exists vt, t, r. auto.
Qed.

Lemma collect_candidates_filter ref_temp items :
  Forall (fun n => is_dict n = true) items ->
  collect_candidates M user_lat user_lon ref_temp (List.filter complete items)
  = collect_candidates M user_lat user_lon ref_temp items.
Proof.
  induction items as [|x items IH]; intros Hd; [reflexivity|].
  apply Forall_cons in Hd as [Hx Hd]. specialize (IH Hd).
  destruct x as [| | | | | |m]; try discriminate.
  cbn [List.filter]. destruct (complete (JObj m)) eqn:Hc.
  - cbn [collect_candidates]. rewrite IH. reflexivity.
  - rewrite IH. unfold complete, present in Hc. simpl in Hc. simpl.
    destruct (is_None (default JNull (m !! "latitude"))),
             (is_None (default JNull (m !! "longitude"))),
             (is_None (default JNull (m !! "temperature"))),
             (is_None (default JNull (m !! "relative_humidity"))),
             (is_None (default JNull (m !! "barometric_pressure")));
      simpl in *; try discriminate; reflexivity.
Qed.

(** X6: for a list of objects, the stations that are not complete have
    no influence on [find_best_matching_node]: it returns the same
    selection, or raises the same exception, on the list and on its
    complete stations alone. *)
Theorem incomplete_stations_do_not_matter items current :
  Forall (fun n => is_dict n = true) items ->
  find_best_matching_node M user_lat user_lon (JArr (List.filter complete items))
    current
  = find_best_matching_node M user_lat user_lon (JArr items) current.
Proof.
  intros Hd. unfold find_best_matching_node.
  destruct (dict_get current "temperature_2m") as [ref|e]; [|reflexivity]. simpl.
  rewrite (collect_candidates_filter ref items Hd). reflexivity.
Qed.

End Nearest.

Lemma find_nearest_node_first_nearest_witness :
  exists items,
    py_iter (JArr [ten; adrift; three; three_twin; five_warm]) = Ok items /\
    exists pre post, items = pre ++ three :: post /\
      has_coordinates three = true /\
      distance_to Reference.C user_lat user_lon three = Ok 3.0022630194031996 /\
      (3.0022630194031996 <? infinity) = true /\
      Forall (not_nearer Reference.C user_lat user_lon 3.0022630194031996 true) pre /\
      Forall (not_nearer Reference.C user_lat user_lon 3.0022630194031996 false) post.
Proof.
  apply (find_nearest_node_first_nearest Reference.C user_lat user_lon
           (JArr [ten; adrift; three; three_twin; five_warm]) (Some three)
           3.0022630194031996).
  vm_compute. reflexivity.
Defined.

Lemma fallback_agrees_with_selector_witness :
  exists sel,
    find_best_matching_node Reference.C user_lat user_lon
      (JArr [ten; adrift; three; three_twin]) no_reference = Ok sel /\
    find_nearest_node Reference.C user_lat user_lon
      (JArr [ten; adrift; three; three_twin]) = Ok (as_nearest sel).
Proof.
  apply (fallback_agrees_with_selector Reference.C user_lat user_lon
           (JArr [ten; adrift; three; three_twin]) no_reference
           [ten; adrift; three; three_twin]
           (candidates JNull [ten; adrift; three; three_twin])).
  - vm_compute. reflexivity.
  - reflexivity.
  - vm_compute. reflexivity.
  - repeat (constructor;
            [first [intros _; vm_compute; reflexivity
                   |intros H; vm_compute in H; discriminate]|]).
    constructor.
  - vm_compute. repeat constructor.
Defined.

Lemma selection_within_tolerance_when_possible_witness :
  let best := {| node := ten; distance_km := 10.007543398009874; temp_diff := 1 |} in
  best ∈ candidates (JFloat 17) [five_warm; ten] /\
  (within_tolerance best = true <->
   Exists (fun c => within_tolerance c = true)
     (candidates (JFloat 17) [five_warm; ten])).
Proof.
  apply (selection_within_tolerance_when_possible Reference.C user_lat user_lon
           (JArr [five_warm; ten]) (reference (JFloat 17)) (JFloat 17)
           [five_warm; ten]).
  - vm_compute. reflexivity.
  - reflexivity.
  - reflexivity.
  - vm_compute. reflexivity.
  - vm_compute. reflexivity.
Defined.

Lemma selection_holds_its_own_numbers_witness :
  distance_to Reference.C user_lat user_lon three = Ok 3.0022630194031996 /\
  exists ref_temp,
    dict_get (reference (JFloat 17)) "temperature_2m" = Ok ref_temp /\
    if is_None ref_temp then 1 = 0
    else exists temp t r,
      dict_get three "temperature" = Ok temp /\
      py_float temp = Ok t /\ py_float ref_temp = Ok r /\ 1 = abs (t - r).
Proof.
  apply (selection_holds_its_own_numbers Reference.C user_lat user_lon
           (JArr [bare; three]) (reference (JFloat 17))
           {| node := three; distance_km := 3.0022630194031996; temp_diff := 1 |}).
  vm_compute. reflexivity.
Defined.

Lemma incomplete_stations_do_not_matter_witness :
  find_best_matching_node Reference.C user_lat user_lon (JArr [ten; three])
    (reference (JFloat 17))
  = find_best_matching_node Reference.C user_lat user_lon
      (JArr [bare; ten; adrift; three]) (reference (JFloat 17)).
Proof.
  apply (incomplete_stations_do_not_matter Reference.C user_lat user_lon
           [bare; ten; adrift; three] (reference (JFloat 17))).
  repeat constructor.
Defined.

(** * Further properties of the handlers *)

Lemma get_nodes_data_cases E w :
  (cache_is_valid E w = true /\
   exists stored, data (cache w) = Some stored /\
     (get_nodes_data E w = (Ok (stored, HIT), w)
      \/ exists e, get_nodes_data E w = (Raise e, w)))
  \/ (cache_is_valid E w = false /\
      get_nodes_data E w =
        match nodes_api E with
        | Ok fresh =>
            (Ok (fresh, MISS),
             {| cache := {| data := Some fresh; timestamp := time E |};
                calls := UrlopenNodes :: calls w |})
        | Raise e =>
            (Raise e, {| cache := cache w; calls := UrlopenNodes :: calls w |})
        end).
Proof.
  destruct (cache_is_valid E w) eqn:Hv.
  - left. split; [reflexivity|]. unfold get_nodes_data. rewrite Hv.
    unfold cache_is_valid in Hv. apply andb_prop in Hv as [Hd _].
    apply bool_decide_eq_true in Hd. destruct Hd as [stored Hd].
    exists stored. split; [assumption|]. rewrite Hd.
    destruct (F.to_int _); eauto.
  - right. split; [reflexivity|]. apply get_nodes_data_miss, Hv.
Qed.

Lemma get_nodes_data_frame E w r w' :
  get_nodes_data E w = (r, w') ->
  kept_or_refreshed E w w' /\
  (calls w' = calls w /\ cache_is_valid E w = true /\ cache w' = cache w
   \/ calls w' = UrlopenNodes :: calls w /\ cache_is_valid E w = false).
Proof.
  intros H.
  destruct (get_nodes_data_cases E w)
    as [(Hv & stored & Hd & [Hg|[e Hg]])|(Hv & Hg)]; rewrite Hg in H.
  - injection H as <- <-. split; [left; reflexivity|left; auto].
  - injection H as <- <-. split; [left; reflexivity|left; auto].
  - destruct (nodes_api E) as [fresh|e] eqn:Hn; injection H as <- <-; simpl.
    + split; [|right; auto]. right. split; [assumption|]. eauto.
    + split; [left; reflexivity|right; auto].
Qed.

Section Handlers.
Variable M : libm.

Lemma api_answer_unfold E user_lat user_lon w :
  api_answer M E user_lat user_lon w =
    match get_nodes_data E w with
    | (Raise e, w1) => (Raise e, w1)
    | (Ok (raw, st), w1) =>
        match json_loads raw with
        | Raise e => (Raise e, w1)
        | Ok nodes =>
            let w2 := {| cache := cache w1;
                         calls := UrlopenOpenMeteo user_lat user_lon :: calls w1 |} in
            match openmeteo_document (openmeteo_api E) with
            | Raise e => (Raise e, w2)
            | Ok current =>
                (api_response M user_lat user_lon nodes current st, w2)
            end
        end
    end.
Proof.
  unfold api_answer, api_inputs, io_bind, fetch_openmeteo_current, urlopen, lift,
    openmeteo_document.
  destruct (get_nodes_data E w) as [[[raw st]|e] w1]; [|reflexivity].
  destruct (json_loads raw) as [nodes|e]; [|reflexivity]. simpl.
  destruct (openmeteo_api E) as [raw'|e]; [|reflexivity]. simpl.
  destruct (json_loads raw') as [payload|e]; [|reflexivity]. simpl.
  destruct (dict_get_or_empty payload "current"); reflexivity.
Qed.

Lemma unusable_coordinates q :
  unusable (lat_text q) \/ unusable (long_text q) ->
  (let* user_lat := parse_coordinate q "lat" None in
   let* user_lon := parse_coordinate q "long" (Some "lon") in
   Ok (user_lat, user_lon)) = Raise ValueError
  \/ exists a b,
       (let* user_lat := parse_coordinate q "lat" None in
        let* user_lon := parse_coordinate q "long" (Some "lon") in
        Ok (user_lat, user_lon)) = Ok (a, b) /\ (a = None \/ b = None).
Proof.
  rewrite parse_coordinate_lat, parse_coordinate_long. intros Hbad.
  destruct (lat_text q) as [t1|], (long_text q) as [t2|]; simpl in *.
  - destruct Hbad as [-> | Hbad]; simpl; [auto|].
    rewrite Hbad. destruct (FloatSyntax.parse t1) as [x|e] eqn:Hp; simpl; [auto|].
    rewrite (parse_raises _ _ Hp). auto.
  - destruct (FloatSyntax.parse t1) as [x|e] eqn:Hp; simpl;
      [right; eexists _, _; split; [reflexivity|auto]|].
    rewrite (parse_raises _ _ Hp). auto.
  - destruct (FloatSyntax.parse t2) as [x|e] eqn:Hp; simpl;
      [right; eexists _, _; split; [reflexivity|auto]|].
    rewrite (parse_raises _ _ Hp). auto.
  - right. eexists _, _. split; [reflexivity|auto].
Qed.

(** The 400 of a query depends on nothing but the query. *)
Lemma handle_api_400 q :
  unusable (lat_text q) \/ unusable (long_text q) ->
  exists m, forall E w,
    handle_api M E q w = (Sent (send_json (ErrorBody m) 400 None), w).
Proof.
  intros Hbad. apply unusable_coordinates in Hbad as [H|(a & b & H & Hnone)].
  - exists InvalidCoordinates. intros E w. unfold handle_api. rewrite H. reflexivity.
  - exists MissingParameters. intros E w. unfold handle_api. rewrite H.
    destruct Hnone as [-> | ->]; [reflexivity|]. destruct a; reflexivity.
Qed.

(** The two ways of [handle_api]: a 400, or the answer to parsed
    coordinates. *)
Lemma handle_api_cases E q w :
  ((unusable (lat_text q) \/ unusable (long_text q)) /\
   exists m, forall E' w',
     handle_api M E' q w' = (Sent (send_json (ErrorBody m) 400 None), w'))
  \/ (exists user_lat user_lon,
        parse_coordinate q "lat" None = Ok (Some user_lat) /\
        parse_coordinate q "long" (Some "lon") = Ok (Some user_lon) /\
        handle_api M E q w =
          match api_answer M E user_lat user_lon w with
          | (Ok r, w') => (Sent r, w')
          | (Raise e, w') =>
              (Sent (send_json (ErrorBody (ExceptionText e)) 500 None), w')
          end).
Proof.
  destruct (unusable_or_parsed (lat_text q)) as [H1|[x Hx]];
    [|destruct (unusable_or_parsed (long_text q)) as [H2|[y Hy]]].
  - left. split; [auto|]. apply handle_api_400. auto.
  - left. split; [auto|]. apply handle_api_400. auto.
  - right. exists x, y. rewrite parse_coordinate_lat, parse_coordinate_long.
    split; [assumption|]. split; [assumption|].
    unfold handle_api. rewrite parse_coordinate_lat, parse_coordinate_long, Hx.
    simpl. rewrite Hy. reflexivity.
Qed.

Lemma api_response_cases user_lat user_lon nodes current st r :
  api_response M user_lat user_lon nodes current st = Ok r ->
  (select_node M user_lat user_lon nodes current = Ok None /\
   r = send_json (ErrorBody NoNodeFound) 404 None)
  \/ (exists n d diff p,
        select_node M user_lat user_lon nodes current = Ok (Some (n, d, diff)) /\
        r = send_json (ApiBody p) 200 (Some st) /\
        lat p = user_lat /\ long p = user_lon /\
        truthy (node_name p) = true /\
        distance_km_rounded p = F.round2 d /\
        check_diff_temperature p = F.round2 <$> diff /\
        dict_get n "temperature" = Ok (temperature p) /\
        dict_get n "relative_humidity" = Ok (relative_humidity p) /\
        dict_get n "barometric_pressure" = Ok (barometric_pressure p) /\
        dict_get n "updated_at" = Ok (updated_at p)).
Proof.
  unfold api_response. intros H.
  apply bind_Ok in H as (sel & Hsel & H).
  destruct sel as [[[n d] diff]|]; [|injection H as <-; auto].
  apply bind_Ok in H as (long_name & Hln & H).
  apply bind_Ok in H as (name & Hname & H).
  apply bind_Ok in H as (vt & Ht & H).
  apply bind_Ok in H as (vh & Hh & H).
  apply bind_Ok in H as (vp & Hp & H).
  apply bind_Ok in H as (vu & Hu & H).
  apply bind_Ok in H as (encoded & Henc & H). apply encode_Ok in Henc as ->.
  injection H as <-. right.
  eexists n, d, diff, _. split; [exact Hsel|]. split; [reflexivity|]. simpl.
  repeat split; try assumption.
  unfold py_or. destruct (truthy name) eqn:Hn; [exact Hn|reflexivity].
Qed.

(** X7: [handle_api] answers every request and leaves no exception
    uncaught: the status is 200, 400, 404 or 500; it is 200 exactly
    when the body is the payload of a station, and exactly then the
    answer carries the [X-Cache-Status] header. *)
Theorem handle_api_always_answers E q w :
  exists r w', handle_api M E q w = (Sent r, w') /\
    (status r = 200 \/ status r = 400 \/ status r = 404 \/ status r = 500)%Z /\
    (status r = 200%Z <-> exists p, content r = ApiBody p) /\
    (status r = 200%Z <-> is_Some (x_cache_status r)).
Proof.
  destruct (handle_api_cases E q w) as [(_ & m & Hm)|(x & y & _ & _ & ->)];
    [rewrite Hm|].
  - eexists _, _. split; [reflexivity|]. simpl. split; [auto|].
    split; (split; [discriminate|]); [intros [p Hp]; discriminate|].
    intros [c Hc]; discriminate.
  - destruct (api_answer M E x y w) as [[r|e] w'] eqn:Ha.
    + eexists _, _. split; [reflexivity|].
      rewrite api_answer_unfold in Ha.
      destruct (get_nodes_data E w) as [[[raw st]|e] w1]; [|discriminate].
      destruct (json_loads raw) as [nodes|e]; [|discriminate]. simpl in Ha.
      destruct (openmeteo_document _) as [current|e]; [|discriminate].
      injection Ha as Ha _.
      apply api_response_cases in Ha
        as [(_ & ->)|(n & d & diff & p & _ & -> & _)]; simpl.
      * split; [auto|]. split; (split; [discriminate|]);
          [intros [p Hp]; discriminate|intros [c Hc]; discriminate].
      * split; [auto|]. split; (split; [intros _|reflexivity]); eauto.
    + eexists _, _. split; [reflexivity|]. simpl. split; [auto|].
      split; (split; [discriminate|]);
        [intros [p Hp]; discriminate|intros [c Hc]; discriminate].
Qed.

Lemma handle_api_texts E w q q' :
  lat_text q = lat_text q' -> long_text q = long_text q' ->
  handle_api M E q w = handle_api M E q' w.
Proof.
  intros H1 H2. unfold handle_api.
  rewrite !parse_coordinate_lat, !parse_coordinate_long, H1, H2. reflexivity.
Qed.

(** X8: of the query, [handle_api] reads the first value of [lat] and
    the first value of [long], or of [lon] when there is no [long]:
    adding or changing any other parameter, changing [lon] when [long]
    is given, and changing the further values of a repeated parameter
    all leave the answer and the world as they are. *)
Theorem handle_api_reads_first_lat_and_long E w q :
  (forall k v, k <> "lat"%string -> k <> "long"%string -> k <> "lon"%string ->
     handle_api M E (<[k := v]> q) w = handle_api M E q w)
  /\ (forall v, is_Some (q !! "long") ->
        handle_api M E (<["lon" := v]> q) w = handle_api M E q w)
  /\ (forall k v more, q !! k = Some v ->
        handle_api M E
          (<[k := {| first_value := first_value v; more_values := more |}]> q) w
        = handle_api M E q w).
Proof.
  split; [|split].
  - intros k v H1 H2 H3. apply handle_api_texts; unfold lat_text, long_text;
      rewrite !lookup_insert_ne by congruence; reflexivity.
  - intros v [x Hx]. apply handle_api_texts; unfold lat_text, long_text;
      rewrite !lookup_insert_ne by discriminate; [reflexivity|].
    rewrite Hx. reflexivity.
  - intros k v more Hk.
    assert (Hfirst : forall j,
              first_value <$> (<[k := {| first_value := first_value v;
                                         more_values := more |}]> q !! j)
              = first_value <$> (q !! j)).
    { intros j. destruct (decide (k = j)) as [<-|Hne].
      - rewrite lookup_insert_eq, Hk. reflexivity.
      - rewrite lookup_insert_ne by assumption. reflexivity. }
    apply handle_api_texts; unfold lat_text, long_text; [apply Hfirst|].
    pose proof (Hfirst "long"%string) as Hl. pose proof (Hfirst "lon"%string) as Hn.
    destruct (<[k := _]> q !! "long") as [a|], (q !! "long") as [b|];
      simpl in Hl; try discriminate.
    + injection Hl as ->. reflexivity.
    + exact Hn.
Qed.

(** The station [select_node] hands back is one of the list, with
    coordinates, and the distance is its own. *)
Lemma select_node_station user_lat user_lon nodes current n d diff :
  select_node M user_lat user_lon nodes current = Ok (Some (n, d, diff)) ->
  exists items, py_iter nodes = Ok items /\ n ∈ items /\
    has_coordinates n = true /\ distance_to M user_lat user_lon n = Ok d.
Proof.
  intros H. unfold select_node in H.
  apply bind_Ok in H as (best & Hbest & H).
  destruct best as [best|].
  - destruct (find_best_some M _ _ _ _ _ Hbest)
      as (ref & items & cs & _ & Hitems & Hcs & Hin).
    apply collect_candidates_spec in Hcs as [Hnodes Hm].
    rewrite Forall_forall in Hm. destruct (Hm _ Hin) as [Hc Hmeasure].
    rewrite (complete_truthy _ Hc) in H. injection H as <- <- <-.
    exists items. split; [assumption|]. split.
    + assert (Hn : In (node best) (node <$> cs))
        by (apply in_map, list_elem_of_In, Hin).
      rewrite Hnodes in Hn. apply filter_In in Hn as [Hn _].
      apply list_elem_of_In, Hn.
    + split; [apply complete_has_coordinates, Hc|].
      eapply measure_distance_to, Hmeasure.
  - apply bind_Ok in H as ([nearest dist] & Hnear & H).
    unfold find_nearest_node in Hnear.
    apply bind_Ok in Hnear as (items & Hitems & Hnear).
    destruct nearest as [x|]; [|discriminate].
    destruct (truthy x); [|discriminate]. injection H as -> -> <-.
    exists items. split; [assumption|].
    apply nearest_loop_spec in Hnear
      as [(Hx & _)|(pre & n' & post & -> & Hn & Hco & Hd & _)]; [discriminate|].
    injection Hn as <-. split; [|auto].
    apply elem_of_app. right. left.
Qed.

(** X9: a 200 answer of [/api] describes one station of the list that
    the cache holds after the request: a station with coordinates,
    whose temperature, humidity, pressure and update time the payload
    repeats; [lat] and [long] are the parsed coordinates, [distance_km]
    is the distance from them to that station rounded to two places,
    and [node_name] is never empty or null. *)
Theorem api_200_describes_a_station E q w r w' :
  handle_api M E q w = (Sent r, w') ->
  status r = 200%Z ->
  exists user_lat user_lon raw nodes items n d p,
    parse_coordinate q "lat" None = Ok (Some user_lat) /\
    parse_coordinate q "long" (Some "lon") = Ok (Some user_lon) /\
    data (cache w') = Some raw /\ json_loads raw = Ok nodes /\
    py_iter nodes = Ok items /\ n ∈ items /\ has_coordinates n = true /\
    distance_to M user_lat user_lon n = Ok d /\
    content r = ApiBody p /\
    lat p = user_lat /\ long p = user_lon /\
    distance_km_rounded p = F.round2 d /\
    truthy (node_name p) = true /\
    dict_get n "temperature" = Ok (temperature p) /\
    dict_get n "relative_humidity" = Ok (relative_humidity p) /\
    dict_get n "barometric_pressure" = Ok (barometric_pressure p) /\
    dict_get n "updated_at" = Ok (updated_at p).
Proof.
  intros H Hst.
  destruct (handle_api_cases E q w) as [(_ & m & Hm)|(x & y & Hx & Hy & Ha)].
  { rewrite Hm in H. injection H as <- _. discriminate. }
  rewrite Ha, api_answer_unfold in H.
  destruct (get_nodes_data E w) as [[[raw st]|e] w1] eqn:Hg;
    [|injection H as <- _; discriminate].
  assert (Hraw : data (cache w1) = Some raw).
  { destruct (get_nodes_data_cases E w)
      as [(_ & stored & Hd & [Hh|[e Hh]])|(_ & Hh)]; rewrite Hh in Hg.
    - injection Hg as <- _ <-. exact Hd.
    - discriminate.
    - destruct (nodes_api E); [|discriminate]. injection Hg as <- _ <-. reflexivity. }
  destruct (json_loads raw) as [nodes|e] eqn:Hnodes;
    [|injection H as <- _; discriminate]. simpl in H.
  destruct (openmeteo_document _) as [current|e];
    [|injection H as <- _; discriminate].
  destruct (api_response M x y nodes current st) as [r0|e] eqn:Hr;
    injection H as <- <-; [|discriminate].
  apply api_response_cases in Hr
    as [(_ & ->)|(n & d & diff & p & Hsel & -> & H1 & H2 & H3 & H4 & _ & H5 & H6 & H7 & H8)];
    [discriminate|].
  apply select_node_station in Hsel as (items & Hitems & Hin & Hco & Hd).
  exists x, y, raw, nodes, items, n, d, p. simpl.
  repeat (split; [assumption || reflexivity|]). assumption.
Qed.

Lemma nearest_loop_unreachable user_lat user_lon items : forall nearest d,
  Forall (fun n => is_dict n = true) items ->
  Forall (not_nearer M user_lat user_lon d false) items ->
  nearest_loop M user_lat user_lon items nearest d = Ok (nearest, d).
Proof.
  induction items as [|x items IH]; intros nearest d Hd Hn; [reflexivity|].
  apply Forall_cons in Hd as [Hx Hd]. apply Forall_cons in Hn as [Hnx Hn].
  destruct x as [| | | | | |m]; try discriminate.
  unfold not_nearer, has_coordinates, present, distance_to in Hnx. simpl in *.
  destruct (is_None (default JNull (m !! "latitude"))); simpl in *; [auto|].
  destruct (is_None (default JNull (m !! "longitude"))); simpl in *; [auto|].
  destruct (Hnx eq_refl) as (dn & Hdn & Hlt).
  apply bind_Ok in Hdn as (lat & -> & Hdn). simpl.
  apply bind_Ok in Hdn as (lon & -> & Hdn). simpl.
  rewrite Hdn. simpl. rewrite Hlt. auto.
Qed.

(** X10: for a request with parsed coordinates whose upstream
    documents arrived, [/api] answers 404 exactly when the weather
    document is an object, the station list is a list of objects, no
    station is complete, and no station with coordinates lies at a
    distance below infinity. *)
Theorem api_404_iff_no_station_in_reach E q w user_lat user_lon nodes current
    st w' :
  parse_coordinate q "lat" None = Ok (Some user_lat) ->
  parse_coordinate q "long" (Some "lon") = Ok (Some user_lon) ->
  api_inputs E user_lat user_lon w = (Ok (nodes, current, st), w') ->
  (exists r, handle_api M E q w = (Sent r, w') /\ status r = 404%Z) <->
  is_dict current = true /\
  exists items, py_iter nodes = Ok items /\
    Forall (fun n => is_dict n = true) items /\
    Forall (fun n => complete n = false) items /\
    Forall (not_nearer M user_lat user_lon infinity false) items.
Proof.
  intros Hx Hy Hin.
  rewrite (handle_api_parsed M _ _ _ _ _ Hx Hy),
    (api_answer_inputs M _ _ _ _ _ _ _ _ Hin).
  split.
  - intros (r & H & Hst).
    destruct (api_response M user_lat user_lon nodes current st) as [r0|e] eqn:Hr;
      injection H as <-; [|discriminate].
    apply api_response_cases in Hr as [(Hsel & _)|(n & d & diff & p & _ & -> & _)];
      [|discriminate].
    unfold select_node in Hsel.
    apply bind_Ok in Hsel as (best & Hbest & Hsel).
    destruct best as [best|].
    { exfalso.
      destruct (find_best_some M _ _ _ _ _ Hbest)
        as (ref & items & cs & _ & _ & Hcs & Hb).
      apply collect_candidates_spec in Hcs as [_ Hm].
      rewrite Forall_forall in Hm. destruct (Hm _ Hb) as [Hc _].
      rewrite (complete_truthy _ Hc) in Hsel. discriminate. }
    apply no_selection_None in Hbest as (Hcur & items & Hitems & Hdicts & Hnone).
    split; [assumption|]. exists items. repeat (split; [assumption|]).
    apply bind_Ok in Hsel as ([nearest dist] & Hnear & Hsel).
    unfold find_nearest_node in Hnear. rewrite Hitems in Hnear. simpl in Hnear.
    apply nearest_loop_spec in Hnear
      as [(-> & -> & Hall)|(pre & n & post & _ & -> & Hco & _)]; [assumption|].
    unfold has_coordinates in Hco. apply andb_prop in Hco as [Hco _].
    rewrite (present_truthy _ _ Hco) in Hsel. discriminate.
  - intros (Hcur & items & Hitems & Hdicts & Hnone & Hfar).
    assert (Hr : api_response M user_lat user_lon nodes current st
                 = Ok (send_json (ErrorBody NoNodeFound) 404 None)).
    { unfold api_response, select_node, find_best_matching_node, find_nearest_node.
      destruct (dict_get_dict current "temperature_2m" Hcur) as [ref ->]. simpl.
      rewrite Hitems. simpl.
      rewrite collect_candidates_none by assumption. simpl.
      rewrite nearest_loop_unreachable by assumption. reflexivity. }
    rewrite Hr. eexists. split; reflexivity.
Qed.



Lemma collect_candidates_raises user_lat user_lon ref_temp items :
  Exists (fun n => is_dict n = false) items ->
  exists e, collect_candidates M user_lat user_lon ref_temp items = Raise e.
Proof.
  induction items as [|x items IH]; intros H; [inversion H|].
  destruct (is_dict x) eqn:Hx.
  - assert (Htail : Exists (fun n => is_dict n = false) items).
    { inversion H as [? ? Hh|]; subst; [congruence|assumption]. }
    destruct (IH Htail) as [e He]. simpl. rewrite He.
    destruct (dict_get x "latitude"); simpl; [|eauto].
    destruct (dict_get x "longitude"); simpl; [|eauto].
    destruct (dict_get x "temperature"); simpl; [|eauto].
    destruct (dict_get x "relative_humidity"); simpl; [|eauto].
    destruct (dict_get x "barometric_pressure"); simpl; [|eauto].
    destruct (_ || _); [eauto|].
    destruct (py_float _); simpl; [|eauto].
    destruct (py_float _); simpl; [|eauto].
    destruct (calculate_distance _ _ _ _ _); simpl; [|eauto].
    destruct (if is_None ref_temp then _ else _); simpl; eauto.
  - destruct x; try discriminate; simpl; eauto.
Qed.

(** X11: when some item of the station list is not an object, the
    loop over the stations raises, and [/api] answers 500 with the text
    of the exception. *)
Theorem item_that_is_no_object_is_a_500 E q w user_lat user_lon nodes current
    st w' items :
  parse_coordinate q "lat" None = Ok (Some user_lat) ->
  parse_coordinate q "long" (Some "lon") = Ok (Some user_lon) ->
  api_inputs E user_lat user_lon w = (Ok (nodes, current, st), w') ->
  py_iter nodes = Ok items ->
  Exists (fun n => is_dict n = false) items ->
  exists e,
    handle_api M E q w
    = (Sent (send_json (ErrorBody (ExceptionText e)) 500 None), w').
Proof.
  intros Hx Hy Hin Hitems Hex.
  rewrite (handle_api_parsed M _ _ _ _ _ Hx Hy),
    (api_answer_inputs M _ _ _ _ _ _ _ _ Hin).
  assert (Hr : exists e, api_response M user_lat user_lon nodes current st = Raise e).
  { unfold api_response, select_node, find_best_matching_node.
    destruct (dict_get current "temperature_2m") as [ref|e]; simpl; [|eauto].
    rewrite Hitems. simpl.
    destruct (collect_candidates_raises user_lat user_lon ref items Hex) as [e ->].
    simpl. eauto. }
  destruct Hr as [e ->]. eauto.
Qed.

(** X12: when the weather document is not an object, or its member
    [current] is there and is not an object (null included), [/api]
    answers 500 with an [AttributeError], after both upstream calls;
    the station list fetched by the request stays in the cache. *)
Theorem reference_that_is_no_object_is_a_500 E q w user_lat user_lon raw st w1
    nodes doc :
  parse_coordinate q "lat" None = Ok (Some user_lat) ->
  parse_coordinate q "long" (Some "lon") = Ok (Some user_lon) ->
  get_nodes_data E w = (Ok (raw, st), w1) ->
  json_loads raw = Ok nodes ->
  openmeteo_api E = Ok (Encoded doc) ->
  (forall v, dict_get_or_empty doc "current" = Ok v -> is_dict v = false) ->
  handle_api M E q w
  = (Sent (send_json (ErrorBody (ExceptionText AttributeError)) 500 None),
     {| cache := cache w1;
        calls := UrlopenOpenMeteo user_lat user_lon :: calls w1 |}).
Proof.
  intros Hx Hy Hg Hnodes Hdoc Hcur.
  rewrite (handle_api_parsed M _ _ _ _ _ Hx Hy), api_answer_unfold, Hg, Hnodes.
  unfold openmeteo_document. rewrite Hdoc. simpl.
  destruct (dict_get_or_empty doc "current") as [v|e] eqn:Hv.
  - specialize (Hcur v eq_refl).
    unfold api_response, select_node, find_best_matching_node.
    destruct v; try discriminate; reflexivity.
  - assert (e = AttributeError) as -> by (destruct doc; simpl in Hv; congruence).
    reflexivity.
Qed.

Lemma parsed_lat_usable q x :
  parse_coordinate q "lat" None = Ok (Some x) -> ~ unusable (lat_text q).
Proof.
  rewrite parse_coordinate_lat. unfold unusable.
  destruct (lat_text q) as [t|]; [|discriminate]. intros H1 H2.
  rewrite H2 in H1. discriminate.
Qed.

Lemma parsed_long_usable q x :
  parse_coordinate q "long" (Some "lon") = Ok (Some x) -> ~ unusable (long_text q).
Proof.
  rewrite parse_coordinate_long. unfold unusable.
  destruct (long_text q) as [t|]; [|discriminate]. intros H1 H2.
  rewrite H2 in H1. discriminate.
Qed.

(** The world an answer to parsed coordinates leaves. *)
Lemma api_answer_world E user_lat user_lon w :
  exists r1 w1, get_nodes_data E w = (r1, w1) /\
    cache (api_answer M E user_lat user_lon w).2 = cache w1 /\
    (calls (api_answer M E user_lat user_lon w).2 = calls w1
     \/ calls (api_answer M E user_lat user_lon w).2
        = UrlopenOpenMeteo user_lat user_lon :: calls w1).
Proof.
  rewrite api_answer_unfold.
  destruct (get_nodes_data E w) as [[[raw st]|e] w1]; eexists _, _;
    (split; [reflexivity|]); [|simpl; auto].
  destruct (json_loads raw) as [nodes|e]; [|simpl; auto]. simpl.
  destruct (openmeteo_document _); simpl; auto.
Qed.

Lemma handle_api_world E q w user_lat user_lon :
  parse_coordinate q "lat" None = Ok (Some user_lat) ->
  parse_coordinate q "long" (Some "lon") = Ok (Some user_lon) ->
  (handle_api M E q w).2 = (api_answer M E user_lat user_lon w).2.
Proof.
  intros H1 H2. rewrite (handle_api_parsed M E q w _ _ H1 H2).
  destruct (api_answer M E user_lat user_lon w) as [[r|e] w']; reflexivity.
Qed.

(** X13: a request to [/api] or [/nodes] leaves the cache as it was,
    or, when the cache held no valid entry, replaces it by the body it
    has just fetched with the time of the request; no request empties
    the cache or stores anything else. *)
Theorem requests_keep_or_refresh_the_cache E q w :
  kept_or_refreshed E w (handle_api M E q w).2 /\
  kept_or_refreshed E w (proxy_nodes E w).2.
Proof.
  split.
  - destruct (handle_api_cases E q w) as [(_ & m & Hm)|(x & y & Hx & Hy & _)];
      [rewrite Hm|].
    + left. reflexivity.
    + rewrite (handle_api_world _ _ _ _ _ Hx Hy).
      destruct (api_answer_world E x y w) as (r1 & w1 & Hg & Hc & _).
      apply get_nodes_data_frame in Hg as [Hk _].
      unfold kept_or_refreshed in *. rewrite Hc. exact Hk.
  - unfold proxy_nodes.
    destruct (get_nodes_data E w) as [[[raw st]|e] w1] eqn:Hg;
      apply get_nodes_data_frame in Hg as [Hk _]; exact Hk.
Qed.

(** X14: [/api] makes at most two outgoing calls, the station list
    before Open-Meteo; Open-Meteo is asked with the parsed coordinates;
    and the station list is fetched exactly when the coordinates are
    usable and the cache holds no valid entry. *)
Theorem api_outgoing_calls E q w :
  exists new, calls (handle_api M E q w).2 = new ++ calls w /\
    (new = [] \/ new = [UrlopenNodes] \/
     exists user_lat user_lon,
       parse_coordinate q "lat" None = Ok (Some user_lat) /\
       parse_coordinate q "long" (Some "lon") = Ok (Some user_lon) /\
       (new = [UrlopenOpenMeteo user_lat user_lon] \/
        new = [UrlopenOpenMeteo user_lat user_lon; UrlopenNodes])) /\
    (UrlopenNodes ∈ new <->
     cache_is_valid E w = false /\
     ~ (unusable (lat_text q) \/ unusable (long_text q))).
Proof.
  destruct (handle_api_cases E q w) as [(Hbad & m & Hm)|(x & y & Hx & Hy & _)];
    [rewrite Hm|].
  - exists []. split; [reflexivity|]. split; [auto|].
    split; [intros H; inversion H|tauto].
  - rewrite (handle_api_world _ _ _ _ _ Hx Hy).
    pose proof (parsed_lat_usable _ _ Hx) as Ux.
    pose proof (parsed_long_usable _ _ Hy) as Uy.
    destruct (api_answer_world E x y w) as (r1 & w1 & Hg & _ & Hcalls).
    apply get_nodes_data_frame in Hg as [_ [(Hc & Hv & _)|(Hc & Hv)]];
      destruct Hcalls as [-> | ->]; rewrite Hc.
    + exists []. split; [reflexivity|]. split; [auto|].
      split; [intros H; inversion H|]. intros [H _]. congruence.
    + exists [UrlopenOpenMeteo x y]. split; [reflexivity|].
      split; [right; right; exists x, y; auto|].
      split; [|intros [H _]; congruence].
      intros H. apply list_elem_of_singleton in H. discriminate.
    + exists [UrlopenNodes]. split; [reflexivity|]. split; [auto|].
      split; [intros _; split; [assumption|tauto]|]. intros _. left.
    + exists [UrlopenOpenMeteo x y; UrlopenNodes]. split; [reflexivity|].
      split; [right; right; exists x, y; auto|].
      split; [intros _; split; [assumption|tauto]|]. intros _. right. left.
Qed.

(** X15: [get_nodes_data] caches the body before anyone decodes it.
    When the fetched body is not JSON, [/nodes] serves it with status
    200 and [/api] answers 500 with a [ValueError]; and for the
    following 300 seconds [/nodes] serves that body as a HIT and every
    [/api] request with usable coordinates answers the same 500,
    without any outgoing call, whatever upstream would answer then. *)
Theorem malformed_list_is_cached E0 w0 :
  cache_is_valid E0 w0 = false ->
  nodes_api E0 = Ok Malformed ->
  let w1 := {| cache := {| data := Some Malformed; timestamp := time E0 |};
               calls := UrlopenNodes :: calls w0 |} in
  let failure := Sent (send_json (ErrorBody (ExceptionText ValueError)) 500 None) in
  proxy_nodes E0 w0 =
    (Sent {| status := 200; content := NodesBody Malformed;
             x_cache_status := Some MISS |}, w1)
  /\ (forall q user_lat user_lon,
        parse_coordinate q "lat" None = Ok (Some user_lat) ->
        parse_coordinate q "long" (Some "lon") = Ok (Some user_lon) ->
        handle_api M E0 q w0 = (failure, w1))
  /\ (forall E1,
        (time E1 - time E0 <? 300) = true ->
        is_finite (300 - (time E1 - time E0)) = true ->
        proxy_nodes E1 w1 =
          (Sent {| status := 200; content := NodesBody Malformed;
                   x_cache_status := Some HIT |}, w1)
        /\ forall q user_lat user_lon,
             parse_coordinate q "lat" None = Ok (Some user_lat) ->
             parse_coordinate q "long" (Some "lon") = Ok (Some user_lon) ->
             handle_api M E1 q w1 = (failure, w1)).
Proof.
  intros Hmiss Hbody w1 failure.
  assert (Hg0 : get_nodes_data E0 w0 = (Ok (Malformed, MISS), w1)).
  { rewrite get_nodes_data_miss, Hbody by assumption. reflexivity. }
  split; [unfold proxy_nodes; rewrite Hg0; reflexivity|]. split.
  - intros q x y Hx Hy. rewrite (handle_api_parsed M _ _ _ _ _ Hx Hy).
    rewrite api_answer_unfold, Hg0. reflexivity.
  - intros E1 Hage Hleft.
    assert (Hg1 : get_nodes_data E1 w1 = (Ok (Malformed, HIT), w1)).
    { apply get_nodes_data_hit; [reflexivity|exact Hage|exact Hleft]. }
    split; [unfold proxy_nodes; rewrite Hg1; reflexivity|].
    intros q x y Hx Hy. rewrite (handle_api_parsed M _ _ _ _ _ Hx Hy).
    rewrite api_answer_unfold, Hg1. reflexivity.
Qed.

Lemma api_response_whatever_the_cache user_lat user_lon nodes current :
  match api_response M user_lat user_lon nodes current HIT,
        api_response M user_lat user_lon nodes current MISS with
  | Ok r, Ok r' =>
      status r = status r' /\ content r = content r' /\
      (x_cache_status r = Some HIT <-> x_cache_status r' = Some MISS)
  | Raise e, Raise e' => e = e'
  | _, _ => False
  end.
Proof.
  unfold api_response.
  destruct (select_node M user_lat user_lon nodes current) as [[[[n d] diff]|]|e];
    simpl; [| |reflexivity].
  - destruct (dict_get n "long_name") as [ln|]; simpl; [|reflexivity].
    destruct (if truthy ln then _ else _); simpl; [|reflexivity].
    destruct (dict_get n "temperature"); simpl; [|reflexivity].
    destruct (dict_get n "relative_humidity"); simpl; [|reflexivity].
    destruct (dict_get n "barometric_pressure"); simpl; [|reflexivity].
    destruct (dict_get n "updated_at"); simpl; [|reflexivity].
    destruct (_ && _); simpl; [|reflexivity].
    repeat split; reflexivity.
  - repeat split; discriminate.
Qed.

(** X16: the cache is transparent to [/api]: a request answered from
    a valid cache entry gets the status and the body that the same
    request gets when the stored body has just been fetched and
    Open-Meteo answers alike; only the [X-Cache-Status] header differs,
    HIT for MISS. *)
Theorem cached_answer_is_the_fresh_answer E E' q w w0 stored :
  data (cache w) = Some stored ->
  (time E - timestamp (cache w) <? 300) = true ->
  is_finite (300 - (time E - timestamp (cache w))) = true ->
  cache_is_valid E' w0 = false ->
  nodes_api E' = Ok stored ->
  openmeteo_api E' = openmeteo_api E ->
  exists r r',
    (handle_api M E q w).1 = Sent r /\ (handle_api M E' q w0).1 = Sent r' /\
    status r = status r' /\ content r = content r' /\
    (x_cache_status r = Some HIT <-> x_cache_status r' = Some MISS).
Proof.
  intros Hd Hage Hleft Hmiss Hfresh Hom.
  destruct (handle_api_cases E q w) as [(Hbad & m & Hm)|(x & y & Hx & Hy & _)].
  - rewrite !Hm. eexists _, _. repeat split; try reflexivity; discriminate.
  - rewrite !(handle_api_parsed M _ _ _ _ _ Hx Hy), !api_answer_unfold.
    rewrite (get_nodes_data_hit E w stored Hd Hage Hleft).
    rewrite (get_nodes_data_miss E' w0 Hmiss), Hfresh, Hom.
    destruct (json_loads stored) as [nodes|e]; simpl;
      [|eexists _, _; repeat split; try reflexivity; discriminate].
    destruct (openmeteo_document _) as [current|e]; simpl;
      [|eexists _, _; repeat split; try reflexivity; discriminate].
    pose proof (api_response_whatever_the_cache x y nodes current) as H.
    destruct (api_response M x y nodes current HIT) as [r|e],
             (api_response M x y nodes current MISS) as [r'|e']; simpl;
      try contradiction.
    + exists r, r'. tauto.
    + subst e'. eexists _, _. repeat split; try reflexivity; discriminate.
Qed.

End Handlers.

(** X17: [/nodes] always answers, with 200 or 500.  A 200 serves the
    body that the cache holds after the request: on a HIT the world is
    unchanged and the entry is less than 300 seconds old, on a MISS the
    body has just been fetched and stamped with the time of the
    request.  A 500 leaves the cache as it was and carries no
    [X-Cache-Status] header. *)
Theorem nodes_answer_is_the_cached_body E w :
  exists r w', proxy_nodes E w = (Sent r, w') /\
    ((status r = 200%Z /\
      exists raw st, content r = NodesBody raw /\ data (cache w') = Some raw /\
        x_cache_status r = Some st /\
        match st with
        | HIT =>
            w' = w /\ (time E - timestamp (cache w) <? 300) = true
        | MISS =>
            cache_is_valid E w = false /\ nodes_api E = Ok raw /\
            timestamp (cache w') = time E /\
            calls w' = UrlopenNodes :: calls w
        end)
     \/ (status r = 500%Z /\ cache w' = cache w /\ x_cache_status r = None /\
         exists e, content r = ErrorBody (ExceptionText e))).
Proof.
  unfold proxy_nodes.
  destruct (get_nodes_data_cases E w)
    as [(Hv & stored & Hd & [Hg|[e Hg]])|(Hv & Hg)]; rewrite Hg.
  - eexists _, _. split; [reflexivity|]. left. split; [reflexivity|].
    exists stored, HIT. simpl. repeat (split; [assumption || reflexivity|]).
    unfold cache_is_valid in Hv. apply andb_prop in Hv as [_ Hage]. exact Hage.
  - eexists _, _. split; [reflexivity|]. right. simpl. eauto 6.
  - destruct (nodes_api E) as [fresh|e].
    + eexists _, _. split; [reflexivity|]. left. split; [reflexivity|].
      exists fresh, MISS. simpl. repeat (split; [assumption || reflexivity|]).
      reflexivity.
    + eexists _, _. split; [reflexivity|]. right. simpl. eauto 6.
Qed.


Lemma api_200_describes_a_station_witness :
  exists user_lat user_lon raw nodes items n d p,
    parse_coordinate (query "52.10" "10.10") "lat" None = Ok (Some user_lat) /\
    parse_coordinate (query "52.10" "10.10") "long" (Some "lon")
    = Ok (Some user_lon) /\
    data (cache (after 1000 [ten; three])) = Some raw /\ json_loads raw = Ok nodes /\
    py_iter nodes = Ok items /\ n ∈ items /\ has_coordinates n = true /\
    distance_to Reference.C user_lat user_lon n = Ok d /\
    ApiBody (answer "three" (JFloat 18) (Some 1)) = ApiBody p /\
    lat p = user_lat /\ long p = user_lon /\
    distance_km_rounded p = F.round2 d /\
    truthy (node_name p) = true /\
    dict_get n "temperature" = Ok (temperature p) /\
    dict_get n "relative_humidity" = Ok (relative_humidity p) /\
    dict_get n "barometric_pressure" = Ok (barometric_pressure p) /\
    dict_get n "updated_at" = Ok (updated_at p).
Proof.
  apply (api_200_describes_a_station Reference.C
           (upstream 1000 [ten; three] (reference (JFloat 17)))
           (query "52.10" "10.10") start
           {| status := 200;
              content := ApiBody (answer "three" (JFloat 18) (Some 1));
              x_cache_status := Some MISS |}
           (after 1000 [ten; three])).
  - vm_compute. reflexivity.
  - reflexivity.
Defined.

Lemma api_404_iff_no_station_in_reach_witness :
  (exists r,
     handle_api Reference.C (upstream 1000 [adrift] (reference (JFloat 17)))
       (query "52.10" "10.10") start = (Sent r, after 1000 [adrift])
     /\ status r = 404%Z) <->
  is_dict (reference (JFloat 17)) = true /\
  exists items, py_iter (JArr [adrift]) = Ok items /\
    Forall (fun n => is_dict n = true) items /\
    Forall (fun n => complete n = false) items /\
    Forall (not_nearer Reference.C user_lat user_lon infinity false) items.
Proof.
  apply (api_404_iff_no_station_in_reach Reference.C
           (upstream 1000 [adrift] (reference (JFloat 17)))
           (query "52.10" "10.10") start user_lat user_lon (JArr [adrift])
           (reference (JFloat 17)) MISS (after 1000 [adrift]));
    vm_compute; reflexivity.
Defined.

Lemma item_that_is_no_object_is_a_500_witness :
  exists e,
    handle_api Reference.C (upstream 1000 [three; JInt 5] (reference (JFloat 17)))
      (query "52.10" "10.10") start
    = (Sent (send_json (ErrorBody (ExceptionText e)) 500 None),
       after 1000 [three; JInt 5]).
Proof.
  apply (item_that_is_no_object_is_a_500 Reference.C
           (upstream 1000 [three; JInt 5] (reference (JFloat 17)))
           (query "52.10" "10.10") start user_lat user_lon
           (JArr [three; JInt 5]) (reference (JFloat 17)) MISS
           (after 1000 [three; JInt 5]) [three; JInt 5]).
  - vm_compute. reflexivity.
  - vm_compute. reflexivity.
  - vm_compute. reflexivity.
  - reflexivity.
  - apply Exists_cons_tl, Exists_cons_hd. reflexivity.
Defined.

Lemma reference_that_is_no_object_is_a_500_witness :
  handle_api Reference.C
    {| time := 1000; nodes_api := Ok (Encoded (JArr [three]));
       openmeteo_api := Ok (Encoded (obj [("current", JNull)])) |}
    (query "52.10" "10.10") start
  = (Sent (send_json (ErrorBody (ExceptionText AttributeError)) 500 None),
     after 1000 [three]).
Proof.
  apply (reference_that_is_no_object_is_a_500 Reference.C
           {| time := 1000; nodes_api := Ok (Encoded (JArr [three]));
              openmeteo_api := Ok (Encoded (obj [("current", JNull)])) |}
           (query "52.10" "10.10") start user_lat user_lon
           (Encoded (JArr [three])) MISS
           {| cache := {| data := Some (Encoded (JArr [three])); timestamp := 1000 |};
              calls := [UrlopenNodes] |}
           (JArr [three]) (obj [("current", JNull)])).
  - vm_compute. reflexivity.
  - vm_compute. reflexivity.
  - reflexivity.
  - reflexivity.
  - reflexivity.
  - intros v H. vm_compute in H. injection H as <-. reflexivity.
Defined.

Lemma malformed_list_is_cached_witness :
  let E0 := {| time := 1000; nodes_api := Ok Malformed;
               openmeteo_api := Raise URLError |} in
  let w1 := {| cache := {| data := Some Malformed; timestamp := 1000 |};
               calls := [UrlopenNodes] |} in
  let failure := Sent (send_json (ErrorBody (ExceptionText ValueError)) 500 None) in
  proxy_nodes E0 start =
    (Sent {| status := 200; content := NodesBody Malformed;
             x_cache_status := Some MISS |}, w1)
  /\ (forall q user_lat user_lon,
        parse_coordinate q "lat" None = Ok (Some user_lat) ->
        parse_coordinate q "long" (Some "lon") = Ok (Some user_lon) ->
        handle_api Reference.C E0 q start = (failure, w1))
  /\ (forall E1,
        (time E1 - 1000 <? 300) = true ->
        is_finite (300 - (time E1 - 1000)) = true ->
        proxy_nodes E1 w1 =
          (Sent {| status := 200; content := NodesBody Malformed;
                   x_cache_status := Some HIT |}, w1)
        /\ forall q user_lat user_lon,
             parse_coordinate q "lat" None = Ok (Some user_lat) ->
             parse_coordinate q "long" (Some "lon") = Ok (Some user_lon) ->
             handle_api Reference.C E1 q w1 = (failure, w1)).
Proof.
  apply (malformed_list_is_cached Reference.C
           {| time := 1000; nodes_api := Ok Malformed;
              openmeteo_api := Raise URLError |} start); reflexivity.
Defined.

Lemma cached_answer_is_the_fresh_answer_witness :
  exists r r',
    (handle_api Reference.C (upstream 1200 [ten] (reference (JFloat 17)))
       (query "52.10" "10.10") (after 1000 [three])).1 = Sent r /\
    (handle_api Reference.C (upstream 1200 [three] (reference (JFloat 17)))
       (query "52.10" "10.10") start).1 = Sent r' /\
    status r = status r' /\ content r = content r' /\
    (x_cache_status r = Some HIT <-> x_cache_status r' = Some MISS).
Proof.
  apply (cached_answer_is_the_fresh_answer Reference.C
           (upstream 1200 [ten] (reference (JFloat 17)))
           (upstream 1200 [three] (reference (JFloat 17)))
           (query "52.10" "10.10") (after 1000 [three]) start
           (Encoded (JArr [three]))); reflexivity.
Defined.

(** * Further properties of the distance *)

Lemma SFsub_opp_opp x y :
  SFsub prec emax (SFopp y) (SFopp x) = SFsub prec emax x y.
Proof.
  destruct x as [[]|[]| |sx mx ex], y as [[]|[]| |sy my ey]; simpl;
    rewrite ?negb_involutive; try reflexivity.
  rewrite (Z.min_comm ey ex). f_equal.
  destruct sx, sy; simpl; lia.
Qed.

Lemma sub_opp_opp x y : (- y) - (- x) = x - y.
Proof.
  apply Prim2SF_inj. rewrite !sub_spec, !opp_spec. apply SFsub_opp_opp.
Qed.

Lemma mul_opp_opp x : (- x) * (- x) = x * x.
Proof.
  rewrite (mul_opp_l x (- x)), (mul_comm x (- x)), (mul_opp_l x x).
  apply opp_involutive.
Qed.

Lemma mul_opp_r x y : x * (- y) = - (x * y).
Proof. rewrite (mul_comm x (- y)), mul_opp_l, (mul_comm y x). reflexivity. Qed.

Section Swaps.
Variable M : libm.
Hypothesis laws : libm_laws M.

(** X18: [calculate_distance] gives the same result, or the same
    exception, when the two latitudes are swapped, when the two
    longitudes are swapped, and when both longitudes are negated.  The
    C library is asked to satisfy [libm_laws]. *)
Theorem calculate_distance_swaps_and_mirror :
  (forall lat1 lon1 lat2 lon2,
     calculate_distance M lat2 lon1 lat1 lon2
     = calculate_distance M lat1 lon1 lat2 lon2)
  /\ (forall lat1 lon1 lat2 lon2,
        calculate_distance M lat1 lon2 lat2 lon1
        = calculate_distance M lat1 lon1 lat2 lon2)
  /\ (forall lat1 lon1 lat2 lon2,
        calculate_distance M lat1 (- lon1) lat2 (- lon2)
        = calculate_distance M lat1 lon1 lat2 lon2).
Proof.
  split; [|split]; intros lat1 lon1 lat2 lon2; rewrite !calculate_distance_unfold.
  - rewrite (half_chord_swap M laws lat2 lat1).
    destruct (half_chord M (lat2 - lat1)) as [p|e]; simpl; [|reflexivity].
    destruct (Math.cos M (Math.radians lat1)) as [c1|e1] eqn:H1,
             (Math.cos M (Math.radians lat2)) as [c2|e2] eqn:H2; simpl;
      try reflexivity.
    + rewrite (mul_comm c2 c1). reflexivity.
    + apply math_1_raises in H1, H2. congruence.
  - rewrite (half_chord_swap M laws lon2 lon1). reflexivity.
  - rewrite sub_opp_opp, (half_chord_swap M laws lon2 lon1). reflexivity.
Qed.

End Swaps.

Lemma calculate_distance_swaps_and_mirror_witness :
  calculate_distance Reference.C 48.137 10.1 52.1 11.575
  = calculate_distance Reference.C 52.1 10.1 48.137 11.575
  /\ calculate_distance Reference.C 52.1 11.575 48.137 10.1
     = calculate_distance Reference.C 52.1 10.1 48.137 11.575
  /\ calculate_distance Reference.C 52.1 (- 10.1) 48.137 (- 11.575)
     = calculate_distance Reference.C 52.1 10.1 48.137 11.575.
Proof.
  destruct (calculate_distance_swaps_and_mirror Reference.C reference_laws)
    as (H1 & H2 & H3).
  split; [apply H1|]. split; [apply H2|exact (H3 52.1 10.1 48.137 11.575)].
Defined.

Section Script.
Variable J : js_math.
Hypothesis laws : js_math_laws J.

Lemma js_half_chord_opp d : js_half_chord J (- d) = js_half_chord J d.
Proof.
  unfold js_half_chord.
  rewrite mul_opp_l, !div_opp_l, (js_sin_odd J laws). apply mul_opp_opp.
Qed.

Lemma js_half_chord_swap x y : js_half_chord J (y - x) = js_half_chord J (x - y).
Proof.
  destruct (sub_swap x y) as [H|[H1 H2]].
  - rewrite H. apply js_half_chord_opp.
  - rewrite H1, H2. reflexivity.
Qed.

Lemma js_sine_opp c d :
  c * js_sin J (- d * Js.PI / 180 / 2) * js_sin J (- d * Js.PI / 180 / 2)
  = c * js_sin J (d * Js.PI / 180 / 2) * js_sin J (d * Js.PI / 180 / 2).
Proof.
  rewrite mul_opp_l, !div_opp_l, (js_sin_odd J laws).
  rewrite mul_opp_r, mul_opp_r, mul_opp_l. apply opp_involutive.
Qed.

Lemma js_sine_swap c x y :
  c * js_sin J ((y - x) * Js.PI / 180 / 2) * js_sin J ((y - x) * Js.PI / 180 / 2)
  = c * js_sin J ((x - y) * Js.PI / 180 / 2) * js_sin J ((x - y) * Js.PI / 180 / 2).
Proof.
  destruct (sub_swap x y) as [H|[H1 H2]].
  - rewrite H. apply js_sine_opp.
  - rewrite H1, H2. reflexivity.
Qed.

(** X19: [calculateDistance] of the page's script is symmetric for all
    numbers, and it is [0] for two identical points whose latitude and
    longitude are finite and whose latitude in radians,
    [lat * Math.PI / 180], has not overflowed.  The engine is asked to
    satisfy [js_math_laws]. *)
Theorem js_distance_symmetric_and_zero :
  (forall lat1 lon1 lat2 lon2,
     Js.calculateDistance J lat1 lon1 lat2 lon2
     = Js.calculateDistance J lat2 lon2 lat1 lon1)
  /\ (forall lat lon,
        is_finite lat = true -> is_finite lon = true ->
        is_finite (lat * Js.PI / 180) = true ->
        Js.calculateDistance J lat lon lat lon = 0).
Proof.
  split.
  - intros lat1 lon1 lat2 lon2. unfold Js.calculateDistance.
    change (js_sin J ((lat2 - lat1) * Js.PI / 180 / 2)
            * js_sin J ((lat2 - lat1) * Js.PI / 180 / 2))
      with (js_half_chord J (lat2 - lat1)).
    change (js_sin J ((lat1 - lat2) * Js.PI / 180 / 2)
            * js_sin J ((lat1 - lat2) * Js.PI / 180 / 2))
      with (js_half_chord J (lat1 - lat2)).
    rewrite (js_half_chord_swap lat1 lat2), (js_sine_swap _ lon1 lon2).
    rewrite (mul_comm (js_cos J (lat1 * Js.PI / 180))). reflexivity.
  - intros lat lon Hlat Hlon Hrad. unfold Js.calculateDistance.
    rewrite (sub_diag lat Hlat), (sub_diag lon Hlon).
    change (0 * Js.PI / 180 / 2) with 0. rewrite (js_sin_zero J laws).
    pose proof (js_cos_bounded J laws _ Hrad) as Hc.
    rewrite (square_times_zero _ Hc).
    change (0 * 0 + 0 * 0) with 0. rewrite (js_sqrt_zero J laws).
    change (1 - 0) with 1. rewrite (js_sqrt_one J laws), (js_atan2_zero J laws).
    reflexivity.
Qed.

End Script.

(** The reference functions satisfy the laws. *)
Lemma reference_js_laws : js_math_laws reference_js.
Proof.
  split; simpl.
  - apply (sin_odd _ reference_laws).
  - reflexivity.
  - apply (cos_bounded _ reference_laws).
  - reflexivity.
  - reflexivity.
  - reflexivity.
Qed.

Lemma js_distance_symmetric_and_zero_witness :
  Js.calculateDistance reference_js 52.1 10.1 48.137 11.575
  = Js.calculateDistance reference_js 48.137 11.575 52.1 10.1
  /\ Js.calculateDistance reference_js 52.1 10.1 52.1 10.1 = 0.
Proof.
  destruct (js_distance_symmetric_and_zero reference_js reference_js_laws)
    as [Hs Hz].
  split; [apply Hs|apply Hz; reflexivity].
Defined.
